(** * TraceKit Python APM: metric registry, buffer, exporter and span
      attribute normalisation, embedded from [src/tracekit]. *)

From Stdlib Require Import ZArith Floats String Ascii.
From stdpp Require Import base option list sorting gmap strings pretty.

Local Open Scope string_scope.
Local Open Scope list_scope.

(** * Part I: the embedding *)

(** ** Python strings

    A Python [str] is modelled by the byte string of its UTF-8 encoding.
    Python compares strings by code point, and byte-wise comparison of UTF-8
    text yields the same order, so [String.compare] is the order used by
    [sorted] on strings. *)

Module PyStr.

Definition le (s t : string) : Prop := String.leb s t = true.

#[global] Instance le_dec s t : Decision (le s t).
Proof. unfold le. apply _. Defined.

(** [sorted(iterable)] on strings. *)
Definition sorted (l : list string) : list string := merge_sort le l.

(** [sep.join(parts)]. *)
Definition join (sep : string) (parts : list string) : string :=
  String.concat sep parts.

(** [s.split(sep, 1)] for a one-character separator: the text before the
    first occurrence of [sep] and the text after it, or [s] alone when [sep]
    does not occur. *)
Fixpoint cut (sep : ascii) (s : string) : option (string * string) :=
  match s with
  | EmptyString => None
  | String c rest =>
      if Ascii.eqb c sep then Some (EmptyString, rest)
      else prod_map (String c) id <$> cut sep rest
  end.

Definition split1 (sep : ascii) (s : string) : list string :=
  match cut sep s with
  | Some (before, after) => [before; after]
  | None => [s]
  end.

End PyStr.

(** ** Exceptions and outcomes

    Every exception raised on the paths modelled here is an instance of a
    subclass of [Exception]; [exn_str] is [str(e)]. *)

Inductive exn : Type :=
  | Exception (msg : string)
  | ValueError (msg : string)
  | OverflowError (msg : string)
  | OSError (msg : string).

Definition exn_str (e : exn) : string :=
  match e with
  | Exception m | ValueError m | OverflowError m | OSError m => m
  end.

Inductive outcome (A : Type) : Type :=
  | Returns (a : A)
  | Raises (e : exn).
Arguments Returns {A} a.
Arguments Raises {A} e.

Definition obind {A B} (x : outcome A) (k : A → outcome B) : outcome B :=
  match x with
  | Returns a => k a
  | Raises e => Raises e
  end.

Fixpoint omap {A B} (f : A → outcome B) (l : list A) : outcome (list B) :=
  match l with
  | [] => Returns []
  | a :: l' =>
      obind (f a) (λ b, obind (omap f l') (λ bs, Returns (b :: bs)))
  end.

(** ** Floats

    [float] is IEEE 754 binary64, as Python's.  [int(x)] truncates toward
    zero and raises on infinities and NaN. *)

Definition py_int (x : float) : outcome Z :=
  match Prim2SF x with
  | S754_zero _ => Returns 0%Z
  | S754_infinity _ =>
      Raises (OverflowError "cannot convert float infinity to integer")
  | S754_nan => Raises (ValueError "cannot convert float NaN to integer")
  | S754_finite s m e =>
      let mag := match e with
                 | Zneg p => Z.shiftr (Zpos m) (Zpos p)
                 | _ => Z.shiftl (Zpos m) e
                 end in
      Returns (if s then (- mag)%Z else mag)
  end.

(** ** Dictionaries in insertion order

    A [dict] keyed by strings is the list of its items in insertion order,
    each key occurring once. *)

Module Dict.
Section Dict.
Context {V : Type}.

Definition t : Type := list (string * V).

Definition keys (d : t) : list string := d.*1.

Fixpoint get (k : string) (d : t) : option V :=
  match d with
  | [] => None
  | (k', v) :: d' => if decide (k' = k) then Some v else get k d'
  end.

Definition contains (k : string) (d : t) : bool := bool_decide (is_Some (get k d)).

(** [d[k] = v]: replaces the value of an existing key in place, appends a
    new key at the end. *)
Fixpoint set (k : string) (v : V) (d : t) : t :=
  match d with
  | [] => [(k, v)]
  | (k', v') :: d' =>
      if decide (k' = k) then (k', v) :: d' else (k', v') :: set k v d'
  end.

(** In-place mutation of the value held at [k] (such as [d[k].append(x)]). *)
Fixpoint alter (f : V → V) (k : string) (d : t) : t :=
  match d with
  | [] => []
  | (k', v') :: d' =>
      if decide (k' = k) then (k', f v') :: d' else (k', v') :: alter f k d'
  end.

End Dict.
Arguments t : clear implicits.
End Dict.

(** A tag mapping, [Dict[str, str]]. *)
Abbreviation Tags := (Dict.t string).

(** ** [MetricDataPoint] (metrics_buffer.py) *)

Module MetricDataPoint.
Record t : Type := mk {
  name : string;
  tags : Tags;
  value : float;
  timestamp : float;      (* Unix timestamp in seconds *)
  metric_type : string;   (* 'counter', 'gauge' or 'histogram' *)
}.
End MetricDataPoint.

(** ** The OTLP metrics payload (the dictionaries built by [_to_otlp]) *)

Module Otlp.

(** [{'key': k, 'value': {'stringValue': v}}] *)
Record KeyValue : Type := mkKeyValue {
  key : string;
  stringValue : string;
}.

Record NumberDataPoint : Type := mkNumberDataPoint {
  attributes : list KeyValue;
  timeUnixNano : string;
  asDouble : float;
}.

(** The aggregation a metric entry carries: the value under its ['sum'] key
    or under its ['gauge'] key. *)
Inductive Aggregation : Type :=
  | Sum (dataPoints : list NumberDataPoint)
        (aggregationTemporality : Z) (isMonotonic : bool)
  | Gauge (dataPoints : list NumberDataPoint).

Record Metric : Type := mkMetric {
  name : string;
  aggregation : Aggregation;
}.

Record ScopeMetrics : Type := mkScopeMetrics {
  scope_name : string;
  metrics : list Metric;
}.

Record ResourceMetrics : Type := mkResourceMetrics {
  resource_attributes : list KeyValue;
  scopeMetrics : list ScopeMetrics;
}.

Record Payload : Type := mkPayload {
  resourceMetrics : list ResourceMetrics;
}.

End Otlp.

(** ** The environment

    The exporter talks to the collector through [urllib.parse] and
    [http.client], and the buffer prints to standard output.  The world
    holds the behaviour of that environment and records what the program did
    to it: the requests made, the lines printed, and every invocation of
    [MetricsExporter.export] with its argument.  [urlparse] is the library
    function of that name, [connection_init] the constructor of
    [HTTPConnection] or [HTTPSConnection], [collector] the fate of the n-th
    exchange, [clock] the n-th reading of [time.time()]. *)

(** The parts of the result of [urlparse] that [export] reads.  [port] is
    computed on access, and raises for a port that is no number in range. *)
Module Url.
Record t : Type := mk {
  scheme : string;
  hostname : option string;
  port : outcome (option Z);
  path : string;
}.
End Url.

(** [conn.request('POST', path, body=body, headers=headers)] on a connection
    made for [req_host] and [req_port], over TLS when [req_https]. *)
Record HttpRequest : Type := mkHttpRequest {
  req_https : bool;
  req_host : option string;
  req_port : Z;
  req_path : string;
  headers : list (string * string);
  body : Otlp.Payload;
}.

(** The fate of an exchange: [conn.request] or [conn.getresponse] raises; or
    a response arrives, whose [read] returns or raises. *)
Inductive HttpResult : Type :=
  | Response (status : Z)
  | Unreadable (status : Z) (e : exn)
  | Failure (e : exn).

Record World : Type := mkWorld {
  collector : nat → HttpRequest → HttpResult;
  clock : nat → float;
  clock_reads : nat;
  requests : list HttpRequest;
  stdout : list string;
  export_calls : list (list MetricDataPoint.t);
  urlparse : string → outcome Url.t;
  connection_init : bool → option string → Z → outcome unit;
}.

(** Computations that act on the world and may raise. *)
Definition M (A : Type) : Type := World → outcome A * World.

Definition ret {A} (a : A) : M A := λ w, (Returns a, w).

Definition raise {A} (e : exn) : M A := λ w, (Raises e, w).

Definition bind {A B} (m : M A) (k : A → M B) : M B :=
  λ w, match m w with
       | (Returns a, w') => k a w'
       | (Raises e, w') => (Raises e, w')
       end.

(** [try: m  except Exception as e: h e] *)
Definition try_except {A} (m : M A) (h : exn → M A) : M A :=
  λ w, match m w with
       | (Returns a, w') => (Returns a, w')
       | (Raises e, w') => h e w'
       end.

Definition lift {A} (x : outcome A) : M A := λ w, (x, w).

Notation "'let!' x ':=' m 'in' k" := (bind m (λ x, k))
  (at level 10, x name, m at level 100, k at level 200, only parsing).
Notation "'do!' m 'in' k" := (bind m (λ _, k))
  (at level 10, m at level 100, k at level 200, only parsing).

(** [print(line)] *)
Definition print (line : string) : M unit :=
  λ w, (Returns (),
        mkWorld (collector w) (clock w) (clock_reads w) (requests w)
                (stdout w ++ [line]) (export_calls w)
                (urlparse w) (connection_init w)).

(** [time.time()] *)
Definition time_time : M float :=
  λ w, (Returns (clock w (clock_reads w)),
        mkWorld (collector w) (clock w) (S (clock_reads w)) (requests w)
                (stdout w) (export_calls w)
                (urlparse w) (connection_init w)).

(** [urlparse(endpoint)] *)
Definition parse_url (endpoint : string) : M Url.t :=
  λ w, (urlparse w endpoint, w).

(** The connection object: what it was constructed with. *)
Record Connection : Type := mkConnection {
  conn_https : bool;
  conn_host : option string;
  conn_port : Z;
}.

(** [http.client.HTTPSConnection(host, port, timeout=10)] when [https],
    [http.client.HTTPConnection(host, port, timeout=10)] otherwise. *)
Definition new_connection (https : bool) (host : option string) (port : Z)
  : M Connection :=
  λ w, match connection_init w https host port with
       | Returns _ => (Returns (mkConnection https host port), w)
       | Raises e => (Raises e, w)
       end.

(** The response object: its status, and what its [read] does. *)
Record HttpResponse : Type := mkHttpResponse {
  status : Z;
  read_outcome : outcome unit;
}.

(** [conn.request('POST', path, body=body, headers=headers)] followed by
    [conn.getresponse()]. *)
Definition request_getresponse (conn : Connection) (path : string)
    (body : Otlp.Payload) (headers : list (string * string))
  : M HttpResponse :=
  λ w, let req := mkHttpRequest (conn_https conn) (conn_host conn)
                                (conn_port conn) path headers body in
       let w' := mkWorld (collector w) (clock w) (clock_reads w)
                         (requests w ++ [req]) (stdout w) (export_calls w)
                         (urlparse w) (connection_init w) in
       match collector w (length (requests w)) req with
       | Response status => (Returns (mkHttpResponse status (Returns ())), w')
       | Unreadable status e => (Returns (mkHttpResponse status (Raises e)), w')
       | Failure e => (Raises e, w')
       end.

(** [response.read()] *)
Definition response_read (response : HttpResponse) : M unit :=
  λ w, (read_outcome response, w).

(** Entry of a call [exporter.export(data_points)]. *)
Definition enter_export (data_points : list MetricDataPoint.t) : M unit :=
  λ w, (Returns (),
        mkWorld (collector w) (clock w) (clock_reads w) (requests w)
                (stdout w) (export_calls w ++ [data_points])
                (urlparse w) (connection_init w)).

(** ** [MetricsExporter] (metrics_exporter.py) *)

Module MetricsExporter.

Record t : Type := mk {
  endpoint : string;
  api_key : string;
  service_name : string;
}.

(** The entry of one data point: its tag items as attributes, its timestamp
    in nanoseconds as a decimal string, its value. *)
Definition otlp_data_point (dp : MetricDataPoint.t)
  : outcome Otlp.NumberDataPoint :=
  let attributes :=
    (λ kv : string * string, Otlp.mkKeyValue kv.1 kv.2)
      <$> MetricDataPoint.tags dp in
  obind (py_int (MetricDataPoint.timestamp dp * 1000000000)%float) (λ ns,
  Returns (Otlp.mkNumberDataPoint attributes (pretty ns)
                                  (MetricDataPoint.value dp))).

(** The first loop of [_to_otlp]: one step files [dp] under its key. *)
Definition group_step (grouped : Dict.t (list MetricDataPoint.t))
    (dp : MetricDataPoint.t) : Dict.t (list MetricDataPoint.t) :=
  let key := MetricDataPoint.name dp +:+ ":" +:+ MetricDataPoint.metric_type dp in
  let grouped :=
    if Dict.contains key grouped then grouped else Dict.set key [] grouped in
  Dict.alter (λ dps, dps ++ [dp]) key grouped.

Definition group (data_points : list MetricDataPoint.t)
  : Dict.t (list MetricDataPoint.t) :=
  foldl group_step [] data_points.

(** The body of the second loop of [_to_otlp]: the metric entry of one
    group. *)
Definition metric_of_group (entry : string * list MetricDataPoint.t)
  : outcome Otlp.Metric :=
  let '(key, dps) := entry in
  match PyStr.split1 ":" key with
  | [name; metric_type] =>
      obind (omap otlp_data_point dps) (λ otlp_data_points,
      if decide (metric_type = "counter") then
        Returns (Otlp.mkMetric name (Otlp.Sum otlp_data_points 2 true))
      else (* gauge or histogram *)
        Returns (Otlp.mkMetric name (Otlp.Gauge otlp_data_points)))
  | _ => Raises (ValueError "not enough values to unpack (expected 2, got 1)")
  end.

Definition _to_otlp (self : t) (data_points : list MetricDataPoint.t)
  : outcome Otlp.Payload :=
  let grouped := group data_points in
  obind (omap metric_of_group grouped) (λ metrics,
  Returns (Otlp.mkPayload
    [Otlp.mkResourceMetrics
       [Otlp.mkKeyValue "service.name" (service_name self)]
       [Otlp.mkScopeMetrics "tracekit" metrics]])).

(** [x or default] for a port: [None] and [0] give the default. *)
Definition port_or (port : option Z) (default : Z) : Z :=
  match port with
  | Some p => if decide (p = 0%Z) then default else p
  | None => default
  end.

(** The payload stands for its JSON text; the [Content-Length] header, which
    depends on that text only, is left out of the request.  [conn.close()]
    in the [finally] clause has no effect that is recorded. *)
Definition export (self : t) (data_points : list MetricDataPoint.t) : M unit :=
  do! enter_export data_points in
  match data_points with
  | [] => ret ()
  | _ =>
      let! payload := lift (_to_otlp self data_points) in
      (* Parse endpoint URL *)
      let! url := parse_url (endpoint self) in
      let is_https := bool_decide (Url.scheme url = "https") in
      (* Create connection *)
      let! port := lift (Url.port url) in
      let! conn :=
        new_connection is_https (Url.hostname url)
          (port_or port (if is_https then 443 else 80)%Z) in
      (* Send request *)
      let headers := [("Content-Type", "application/json");
                      ("X-API-Key", api_key self)] in
      let! response := request_getresponse conn (Url.path url) payload headers in
      if decide (status response ≠ 200%Z) then
        raise (Exception ("HTTP " +:+ pretty (status response)))
      else
        (* Consume response *)
        response_read response
  end.

End MetricsExporter.

(** ** [MetricsBuffer] (metrics_buffer.py)

    The methods are embedded as calls that run to their end without
    another call overlapping them; the background worker appears through
    [_flush_loop_wakeup], one wake-up of its loop.  Calls of several threads
    that overlap are the matter of the section on threads, which splits
    each method at the points where the source lets another thread in. *)

Module MetricsBuffer.

Record t : Type := mk {
  data : list MetricDataPoint.t;
  exporter : MetricsExporter.t;
  _shutdown : bool;
  max_size : Z;
  flush_interval : float;
}.

Definition set_data (d : list MetricDataPoint.t) (self : t) : t :=
  mk d (exporter self) (_shutdown self) (max_size self) (flush_interval self).

Definition set_shutdown (b : bool) (self : t) : t :=
  mk (data self) (exporter self) b (max_size self) (flush_interval self).

Definition __init__ (endpoint api_key service_name : string) : t :=
  mk [] (MetricsExporter.mk endpoint api_key service_name) false 100 10.

Definition _flush (self : t) : M t :=
  match data self with
  | [] => ret self
  | to_export =>
      let self := set_data [] self in
      do! try_except
            (MetricsExporter.export (exporter self) to_export)
            (λ e, print ("Failed to export metrics: " +:+ exn_str e)) in
      ret self
  end.

Definition add (self : t) (data_point : MetricDataPoint.t) : M t :=
  if _shutdown self then ret self
  else
    let self := set_data (data self ++ [data_point]) self in
    let should_flush := bool_decide (max_size self ≤ Z.of_nat (length (data self)))%Z in
    if should_flush then _flush self else ret self.

(** One iteration of [_flush_loop], from the return of [time.sleep]. *)
Definition _flush_loop_wakeup (self : t) : M t :=
  if negb (_shutdown self) then _flush self else ret self.

Definition shutdown (self : t) : M t :=
  let self := set_shutdown true self in
  _flush self.

End MetricsBuffer.

(** ** Instruments (metrics.py)

    Every instrument of a registry holds a reference to the registry's one
    buffer; the methods take that buffer and return it updated. *)

Module CounterImpl.

Record t : Type := mk {
  name : string;
  tags : Tags;
}.

Definition add (self : t) (value : float) (buffer : MetricsBuffer.t)
  : M MetricsBuffer.t :=
  if (value <? 0)%float then ret buffer   (* Counters must be monotonic *)
  else
    let! now := time_time in
    MetricsBuffer.add buffer
      (MetricDataPoint.mk (name self) (tags self) value now "counter").

Definition inc (self : t) (buffer : MetricsBuffer.t) : M MetricsBuffer.t :=
  add self 1 buffer.

End CounterImpl.

Module GaugeImpl.

Record t : Type := mk {
  name : string;
  tags : Tags;
  _value : float;
}.

Definition __init__ (name : string) (tags : Tags) : t := mk name tags 0.

Definition set (self : t) (value : float) (buffer : MetricsBuffer.t)
  : M (t * MetricsBuffer.t) :=
  let self := mk (name self) (tags self) value in
  let! now := time_time in
  let! buffer :=
    MetricsBuffer.add buffer
      (MetricDataPoint.mk (name self) (tags self) value now "gauge") in
  ret (self, buffer).

Definition inc (self : t) (buffer : MetricsBuffer.t) : M (t * MetricsBuffer.t) :=
  let self := mk (name self) (tags self) (_value self + 1)%float in
  let value := _value self in
  let! now := time_time in
  let! buffer :=
    MetricsBuffer.add buffer
      (MetricDataPoint.mk (name self) (tags self) value now "gauge") in
  ret (self, buffer).

Definition dec (self : t) (buffer : MetricsBuffer.t) : M (t * MetricsBuffer.t) :=
  let self := mk (name self) (tags self) (_value self - 1)%float in
  let value := _value self in
  let! now := time_time in
  let! buffer :=
    MetricsBuffer.add buffer
      (MetricDataPoint.mk (name self) (tags self) value now "gauge") in
  ret (self, buffer).

End GaugeImpl.

Module HistogramImpl.

Record t : Type := mk {
  name : string;
  tags : Tags;
}.

Definition record (self : t) (value : float) (buffer : MetricsBuffer.t)
  : M MetricsBuffer.t :=
  let! now := time_time in
  MetricsBuffer.add buffer
    (MetricDataPoint.mk (name self) (tags self) value now "histogram").

End HistogramImpl.

(** ** [MetricsRegistry] (metrics.py)

    Instrument objects live in [heap], in order of construction; a reference
    is the position of the object there, and reference equality ([is]) is
    equality of positions.  The three dictionaries hold references.  Tag
    mappings are values here, so [tags.copy()] is [tags]. *)

Definition ref : Type := nat.

Inductive Instrument : Type :=
  | ACounter (c : CounterImpl.t)
  | AGauge (g : GaugeImpl.t)
  | AHistogram (h : HistogramImpl.t).

Module MetricsRegistry.

Record t : Type := mk {
  counters : gmap string ref;
  gauges : gmap string ref;
  histograms : gmap string ref;
  buffer : MetricsBuffer.t;
  heap : list Instrument;
}.

Definition __init__ (endpoint api_key service_name : string) : t :=
  mk ∅ ∅ ∅ (MetricsBuffer.__init__ endpoint api_key service_name) [].

Definition render_pair (kv : string * string) : string :=
  kv.1 +:+ "=" +:+ kv.2.

Definition _metric_key (name : string) (tags : Tags) : string :=
  match tags with
  | [] => name
  | _ =>
      let tag_pairs := PyStr.sorted (render_pair <$> tags) in
      name +:+ "{" +:+ PyStr.join "," tag_pairs +:+ "}"
  end.

Definition counter (self : t) (name : string) (tags : option Tags) : ref * t :=
  let tags := default [] tags in
  let key := _metric_key name tags in
  match counters self !! key with
  | Some c => (c, self)
  | None =>
      (* Double-check after lock *)
      match counters self !! key with
      | Some c => (c, self)
      | None =>
          let counter := length (heap self) in
          (counter,
           mk (<[key := counter]> (counters self)) (gauges self)
              (histograms self) (buffer self)
              (heap self ++ [ACounter (CounterImpl.mk name tags)]))
      end
  end.

Definition gauge (self : t) (name : string) (tags : option Tags) : ref * t :=
  let tags := default [] tags in
  let key := _metric_key name tags in
  match gauges self !! key with
  | Some g => (g, self)
  | None =>
      (* Double-check after lock *)
      match gauges self !! key with
      | Some g => (g, self)
      | None =>
          let gauge := length (heap self) in
          (gauge,
           mk (counters self) (<[key := gauge]> (gauges self))
              (histograms self) (buffer self)
              (heap self ++ [AGauge (GaugeImpl.__init__ name tags)]))
      end
  end.

Definition histogram (self : t) (name : string) (tags : option Tags) : ref * t :=
  let tags := default [] tags in
  let key := _metric_key name tags in
  match histograms self !! key with
  | Some h => (h, self)
  | None =>
      (* Double-check after lock *)
      match histograms self !! key with
      | Some h => (h, self)
      | None =>
          let histogram := length (heap self) in
          (histogram,
           mk (counters self) (gauges self)
              (<[key := histogram]> (histograms self)) (buffer self)
              (heap self ++ [AHistogram (HistogramImpl.mk name tags)]))
      end
  end.

Definition shutdown (self : t) : M t :=
  let! buffer := MetricsBuffer.shutdown (buffer self) in
  ret (mk (counters self) (gauges self) (histograms self) buffer (heap self)).

End MetricsRegistry.

(** ** [TracekitClient._normalize_attributes] (client.py) *)

Module TracekitClient.

(** Attribute values, by the classes the method tests for. *)
#[local] Set Warnings "-register-all".
Inductive value : Type :=
  | VStr (s : string)
  | VInt (n : Z)
  | VFloat (x : float)
  | VBool (b : bool)
  | VList (items : list value)
  | VTuple (items : list value)
  | VNone
  | VDict (items : list (value * value))
  | VObject (cls : string) (id : nat).

Section normalize.

(** The builtin [str]. *)
Variable str : value → string.

Definition normalize_step (normalized : Dict.t value) (item : string * value)
  : Dict.t value :=
  let '(key, value) := item in
  match value with
  | VStr _ | VInt _ | VFloat _ | VBool _ =>
      Dict.set key value normalized
  | VList items | VTuple items =>
      Dict.set key (VList ((λ v, VStr (str v)) <$> items)) normalized
  | _ =>
      Dict.set key (VStr (str value)) normalized
  end.

Definition _normalize_attributes (attributes : Dict.t value) : Dict.t value :=
  foldl normalize_step [] attributes.

End normalize.

End TracekitClient.

(** * Part II: properties *)

(** ** The order on strings *)

Section string_order.

Lemma ascii_compare_refl a : Ascii.compare a a = Eq.
Proof. unfold Ascii.compare. apply N.compare_refl. Qed.

Lemma ascii_compare_lt_trans a b c :
  Ascii.compare a b = Lt → Ascii.compare b c = Lt → Ascii.compare a c = Lt.
Proof. unfold Ascii.compare. rewrite !N.compare_lt_iff. apply N.lt_trans. Qed.

Lemma string_compare_refl s : String.compare s s = Eq.
Proof.
  induction s as [|a s IH]; simpl; [done|]. by rewrite ascii_compare_refl.
Qed.

Lemma string_compare_lt_trans s : ∀ t u,
  String.compare s t = Lt → String.compare t u = Lt → String.compare s u = Lt.
Proof.
  induction s as [|a s IH]; intros [|b t] [|c u]; simpl; try done.
  destruct (Ascii.compare a b) eqn:Hab; try done.
  - apply Ascii.compare_eq_iff in Hab as ->.
    destruct (Ascii.compare b c); try done. apply IH.
  - destruct (Ascii.compare b c) eqn:Hbc; try done.
    + apply Ascii.compare_eq_iff in Hbc as <-. by rewrite Hab.
    + by rewrite (ascii_compare_lt_trans _ _ _ Hab Hbc).
Qed.

#[local] Instance le_trans : Transitive PyStr.le.
Proof.
  intros s t u. unfold PyStr.le, String.leb. intros Hst Htu.
  destruct (String.compare s t) eqn:H1; try done.
  - by apply String.compare_eq_iff in H1 as ->.
  - destruct (String.compare t u) eqn:H2; try done.
    + apply String.compare_eq_iff in H2 as <-. by rewrite H1.
    + by rewrite (string_compare_lt_trans _ _ _ H1 H2).
Qed.

#[local] Instance le_total : Total PyStr.le.
Proof. intros s t. apply String.leb_total. Qed.

#[local] Instance le_antisym : AntiSymm (=) PyStr.le.
Proof. intros s t. apply String.leb_antisym. Qed.

Lemma sorted_Sorted l : Sorted PyStr.le (PyStr.sorted l).
Proof. apply Sorted_merge_sort, _. Qed.

Lemma sorted_Permutation l : PyStr.sorted l ≡ₚ l.
Proof. apply merge_sort_Permutation. Qed.

(** [sorted] depends on the elements of its argument only, not on their
    order. *)
Lemma sorted_unique l1 l2 : l1 ≡ₚ l2 → PyStr.sorted l1 = PyStr.sorted l2.
Proof.
  intros Hp. apply (Sorted_unique PyStr.le); try apply sorted_Sorted.
  by rewrite !sorted_Permutation.
Qed.

End string_order.

(** ** The instrument key *)

(** The instrument key in the words of the specification: the tag pairs are
    put in the order of their keys, then each is rendered as [k=v]. *)
Definition key_le (p q : string * string) : Prop := PyStr.le p.1 q.1.

#[local] Instance key_le_dec p q : Decision (key_le p q).
Proof. unfold key_le. apply _. Defined.

Definition instrument_key_spec (name : string) (tags : Tags) : string :=
  match tags with
  | [] => name
  | _ =>
      name +:+ "{"
        +:+ PyStr.join "," (MetricsRegistry.render_pair <$> merge_sort key_le tags)
        +:+ "}"
  end.

Example metric_key_no_tags :
  MetricsRegistry._metric_key "http.requests" [] = "http.requests".
Proof. reflexivity. Qed.

Example metric_key_two_tags :
  MetricsRegistry._metric_key "http.requests"
    [("method", "GET"); ("code", "200")]
  = "http.requests{code=200,method=GET}".
Proof. vm_compute. reflexivity. Qed.

(** C6, as stated, fails: with the tags [a -> x] and [a1 -> y] the code
    orders the rendered pairs ["a1=y"] before ["a=x"] (the character [1]
    precedes [=]), whereas the order of the keys puts [a] before [a1]. *)
Lemma C6_metric_key_not_sorted_by_key :
  NoDup (Dict.keys [("a", "x"); ("a1", "y")])
  ∧ MetricsRegistry._metric_key "m" [("a", "x"); ("a1", "y")] = "m{a1=y,a=x}"
  ∧ instrument_key_spec "m" [("a", "x"); ("a1", "y")] = "m{a=x,a1=y}"
  ∧ MetricsRegistry._metric_key "m" [("a", "x"); ("a1", "y")]
    ≠ instrument_key_spec "m" [("a", "x"); ("a1", "y")].
Proof.
  split; [compute_done|].
  split; [by vm_compute|]. split; [by vm_compute|].
  vm_compute. discriminate.
Qed.

(** C6, amended: the key is the name alone for an empty tag mapping, and
    otherwise [name{p1,...,pn}] where [p1..pn] are the renderings [k=v] of
    the tag pairs, put in the lexicographic order of the rendered texts. *)
Theorem C6_metric_key_format (name : string) :
  MetricsRegistry._metric_key name [] = name
  ∧ ∀ (kv : string * string) (tags : Tags),
      ∃ tag_pairs : list string,
        MetricsRegistry._metric_key name (kv :: tags)
          = name +:+ "{" +:+ PyStr.join "," tag_pairs +:+ "}"
        ∧ tag_pairs ≡ₚ MetricsRegistry.render_pair <$> (kv :: tags)
        ∧ Sorted PyStr.le tag_pairs.
Proof.
  split; [done|]. intros kv tags.
  exists (PyStr.sorted (MetricsRegistry.render_pair <$> (kv :: tags))).
  split; [done|]. split; [apply sorted_Permutation | apply sorted_Sorted].
Qed.

Lemma metric_key_Permutation (name : string) (T1 T2 : Tags) :
  T1 ≡ₚ T2 →
  MetricsRegistry._metric_key name T1 = MetricsRegistry._metric_key name T2.
Proof.
  intros Hp. unfold MetricsRegistry._metric_key.
  destruct T1 as [|p1 T1], T2 as [|p2 T2]; try done.
  - by apply Permutation_nil_cons in Hp.
  - symmetry in Hp. by apply Permutation_nil_cons in Hp.
  - by rewrite (sorted_unique _ _ (fmap_Permutation MetricsRegistry.render_pair _ _ Hp)).
Qed.

(** C7: the instrument key does not depend on the insertion order of the
    tags. *)
Theorem C7_metric_key_permutation (name : string) (T1 T2 : Tags) :
  T1 ≡ₚ T2 →
  MetricsRegistry._metric_key name T1 = MetricsRegistry._metric_key name T2.
Proof.
  intros Hp. unfold MetricsRegistry._metric_key.
  destruct T1 as [|p1 T1], T2 as [|p2 T2].
  - reflexivity.
  - by apply Permutation_nil_cons in Hp.
  - symmetry in Hp. by apply Permutation_nil_cons in Hp.
  - assert (Hs : PyStr.sorted (MetricsRegistry.render_pair <$> p1 :: T1)
                 = PyStr.sorted (MetricsRegistry.render_pair <$> p2 :: T2))
      by (apply sorted_unique; by apply fmap_Permutation).
    by rewrite Hs.
Qed.

Lemma C7_metric_key_permutation_witness :
  [("region", "eu"); ("host", "a")] ≡ₚ [("host", "a"); ("region", "eu")]
  ∧ MetricsRegistry._metric_key "cpu" [("region", "eu"); ("host", "a")]
    = MetricsRegistry._metric_key "cpu" [("host", "a"); ("region", "eu")].
Proof.
  assert (Hp : [("region", "eu"); ("host", "a")]
               ≡ₚ [("host", "a"); ("region", "eu")]) by apply Permutation_swap.
  split; [exact Hp | exact (C7_metric_key_permutation "cpu" _ _ Hp)].
Defined.

(** ** The buffer *)

(** A caller adding the points of a list one after the other. *)
Fixpoint add_all (self : MetricsBuffer.t) (points : list MetricDataPoint.t)
  : M MetricsBuffer.t :=
  match points with
  | [] => ret self
  | p :: points' =>
      let! self := MetricsBuffer.add self p in add_all self points'
  end.

(** The operations performed on a buffer by its producers, its background
    worker and its owner; [step] is one of them run to its end with no
    other call overlapping it. *)
Inductive op : Type :=
  | Add (p : MetricDataPoint.t)
  | Wakeup
  | Shutdown.

Definition step (self : MetricsBuffer.t) (o : op) : M MetricsBuffer.t :=
  match o with
  | Add p => MetricsBuffer.add self p
  | Wakeup => MetricsBuffer._flush_loop_wakeup self
  | Shutdown => MetricsBuffer.shutdown self
  end.

Fixpoint run (self : MetricsBuffer.t) (ops : list op) : M MetricsBuffer.t :=
  match ops with
  | [] => ret self
  | o :: ops' => let! self := step self o in run self ops'
  end.

Section buffer.
Import MetricsBuffer.

(** What a call of [export] does to the world, whatever its outcome: it is
    recorded, it prints nothing and it does not read the clock. *)
Lemma export_world ex batch w :
  ∃ r w', MetricsExporter.export ex batch w = (r, w')
    ∧ export_calls w' = export_calls w ++ [batch]
    ∧ stdout w' = stdout w
    ∧ clock_reads w' = clock_reads w.
Proof.
  unfold MetricsExporter.export, bind, enter_export, lift, parse_url,
    new_connection, request_getresponse, response_read, ret, raise.
  destruct batch as [|p batch]; simpl; [by eauto 10|].
  repeat (case_match; simpl in * ); simplify_eq; simpl; by eauto 10.
Qed.

Lemma flush_empty self w : data self = [] → _flush self w = (Returns self, w).
Proof. unfold _flush. by intros ->. Qed.

(** A flush of a non-empty buffer returns normally with the buffer emptied,
    after exactly one call of [export], on the whole pending list. *)
Lemma flush_nonempty self w :
  data self ≠ [] →
  ∃ w', _flush self w = (Returns (set_data [] self), w')
    ∧ export_calls w' = export_calls w ++ [data self]
    ∧ clock_reads w' = clock_reads w.
Proof.
  intros Hne. unfold _flush. destruct (data self) as [|p batch] eqn:Hd; [done|].
  unfold bind, try_except. simpl.
  destruct (export_world (exporter self) (p :: batch) w)
    as (r & w' & -> & Hc & Hs & Hk).
  destruct r as [[]|e]; simpl; eauto 10.
Qed.

Lemma flush_returns self w : ∃ self' w', _flush self w = (Returns self', w').
Proof.
  destruct (data self) as [|p batch] eqn:Hd.
  - rewrite flush_empty; eauto.
  - destruct (flush_nonempty self w) as (w' & -> & _); [by rewrite Hd|eauto].
Qed.

Lemma add_after_shutdown self p w :
  _shutdown self = true → add self p w = (Returns self, w).
Proof. unfold add. by intros ->. Qed.

Lemma add_below self p w :
  _shutdown self = false →
  (Z.of_nat (length (data self)) + 1 < max_size self)%Z →
  add self p w = (Returns (set_data (data self ++ [p]) self), w).
Proof.
  intros Hs Hlt. unfold add. rewrite Hs. simpl.
  rewrite bool_decide_eq_false_2; [done|].
  rewrite length_app. simpl. lia.
Qed.

Lemma add_full self p w :
  _shutdown self = false →
  (max_size self ≤ Z.of_nat (length (data self)) + 1)%Z →
  add self p w = _flush (set_data (data self ++ [p]) self) w.
Proof.
  intros Hs Hle. unfold add. rewrite Hs. simpl.
  rewrite bool_decide_eq_true_2; [done|].
  rewrite length_app. simpl. lia.
Qed.

Lemma add_all_below points : ∀ self w,
  _shutdown self = false →
  (Z.of_nat (length (data self) + length points) < max_size self)%Z →
  add_all self points w = (Returns (set_data (data self ++ points) self), w).
Proof.
  induction points as [|p points IH]; intros self w Hs Hlt; simpl.
  - rewrite app_nil_r. by destruct self.
  - unfold bind. rewrite add_below; [|done|simpl in Hlt; lia].
    rewrite IH; simpl; [|done|rewrite length_app; simpl in *; lia].
    by rewrite <- app_assoc.
Qed.

Lemma add_all_snoc points p : ∀ self w,
  add_all self (points ++ [p]) w
  = (let! self := add_all self points in add self p) w.
Proof.
  induction points as [|q points IH]; intros self w; simpl.
  - unfold bind, ret. by destruct (add self p w) as [[]].
  - unfold bind in *. destruct (add self q w) as [[self'|e] w']; [|done].
    apply IH.
Qed.

End buffer.

Section buffer_claims.
Import MetricsBuffer.

Example fresh_buffer_is_empty endpoint api_key service_name :
  let b := __init__ endpoint api_key service_name in
  data b = [] ∧ _shutdown b = false ∧ max_size b = 100%Z.
Proof. done. Qed.

(** C2: on a live, empty buffer with [max_size = 100], adding 99 points
    leaves the world untouched (no export call), adding the 100th makes
    exactly one call of [export], within [add], on the 100 points in the
    order of insertion, and leaves the buffer empty; flushing an empty buffer
    makes no export call. *)
Theorem C2_flush_at_max_size
    (self : t) (points : list MetricDataPoint.t) (last : MetricDataPoint.t)
    (w : World) :
  data self = [] → _shutdown self = false → max_size self = 100%Z →
  length points = 99 →
  add_all self points w = (Returns (set_data points self), w)
  ∧ (∃ w', add (set_data points self) last w = (Returns self, w')
       ∧ export_calls w' = export_calls w ++ [points ++ [last]])
  ∧ (∃ w', add_all self (points ++ [last]) w = (Returns self, w')
       ∧ export_calls w' = export_calls w ++ [points ++ [last]])
  ∧ _flush self w = (Returns self, w).
Proof.
  intros Hd Hs Hm Hlen.
  assert (Hadd : add_all self points w = (Returns (set_data points self), w)).
  { rewrite add_all_below; [by rewrite Hd|done|]. rewrite Hd, Hm. simpl. lia. }
  assert (Hlast : ∃ w', add (set_data points self) last w = (Returns self, w')
            ∧ export_calls w' = export_calls w ++ [points ++ [last]]).
  { rewrite add_full; [|done|simpl; lia].
    destruct (flush_nonempty (set_data (data (set_data points self) ++ [last])
                                       (set_data points self)) w)
      as (w' & Hf & Hc & _).
    { simpl. by destruct points. }
    exists w'. rewrite Hf. split; [|done].
    destruct self; simpl in *; by subst. }
  split; [done|]. split; [done|]. split; [|by apply flush_empty].
  destruct Hlast as (w' & Hl & Hc). exists w'. split; [|done].
  rewrite add_all_snoc. unfold bind. by rewrite Hadd.
Qed.

Definition sample_point (v : float) : MetricDataPoint.t :=
  MetricDataPoint.mk "requests" [("route", "/")] v 1700000000 "counter".

(** What [urlparse] gives for the endpoint of the examples. *)
Definition sample_urlparse (endpoint : string) : outcome Url.t :=
  Returns (Url.mk "http" (Some "localhost") (Returns (Some 8081%Z)) "/v1/metrics").

Definition quiet_world : World :=
  mkWorld (λ _ _, Response 200) (λ _, 1700000000%float) 0 [] [] []
          sample_urlparse (λ _ _ _, Returns ()).

Lemma C2_flush_at_max_size_witness :
  let self := __init__ "http://localhost:8081/v1/metrics" "key" "svc" in
  let points := replicate 99 (sample_point 1) in
  add_all self points quiet_world = (Returns (set_data points self), quiet_world)
  ∧ (∃ w', add (set_data points self) (sample_point 2) quiet_world
             = (Returns self, w')
       ∧ export_calls w'
         = export_calls quiet_world ++ [points ++ [sample_point 2]])
  ∧ (∃ w', add_all self (points ++ [sample_point 2]) quiet_world
             = (Returns self, w')
       ∧ export_calls w'
         = export_calls quiet_world ++ [points ++ [sample_point 2]])
  ∧ _flush self quiet_world = (Returns self, quiet_world).
Proof.
  apply (C2_flush_at_max_size
           (__init__ "http://localhost:8081/v1/metrics" "key" "svc")
           (replicate 99 (sample_point 1)) (sample_point 2) quiet_world);
    reflexivity.
Defined.

(** No operation of the buffer lets an exception escape. *)
Lemma add_returns self p w : ∃ self' w', add self p w = (Returns self', w').
Proof.
  unfold add. destruct (_shutdown self); [by eauto|].
  destruct (bool_decide _); [apply flush_returns|by eauto].
Qed.

Lemma wakeup_returns self w :
  ∃ self' w', _flush_loop_wakeup self w = (Returns self', w').
Proof.
  unfold _flush_loop_wakeup.
  destruct (negb _); [apply flush_returns|by eauto].
Qed.

Lemma shutdown_returns self w :
  ∃ self' w', shutdown self w = (Returns self', w').
Proof. apply flush_returns. Qed.

Lemma step_returns self o w : ∃ self' w', step self o w = (Returns self', w').
Proof.
  destruct o; [apply add_returns|apply wakeup_returns|apply shutdown_returns].
Qed.

Lemma run_returns ops : ∀ self w, ∃ self' w', run self ops w = (Returns self', w').
Proof.
  induction ops as [|o ops IH]; intros self w; simpl; [by eauto|].
  unfold bind. destruct (step_returns self o w) as (self' & w' & ->). apply IH.
Qed.

Lemma run_app ops1 ops2 : ∀ self w,
  run self (ops1 ++ ops2) w = (let! self := run self ops1 in run self ops2) w.
Proof.
  induction ops1 as [|o ops1 IH]; intros self w; simpl; [done|].
  unfold bind in *. destruct (step self o w) as [[self'|e] w']; [|done].
  apply IH.
Qed.

(** The shutdown flag is never cleared. *)
Lemma flush_shutdown self w self' w' :
  _flush self w = (Returns self', w') → _shutdown self' = _shutdown self.
Proof.
  destruct (data self) as [|p batch] eqn:Hd.
  - rewrite flush_empty; [|done]. by intros [= <- _].
  - destruct (flush_nonempty self w) as (w1 & -> & _); [by rewrite Hd|].
    by intros [= <- _].
Qed.

Lemma step_keeps_shutdown self o w self' w' :
  _shutdown self = true → step self o w = (Returns self', w') →
  _shutdown self' = true.
Proof.
  intros Hs. destruct o; simpl.
  - rewrite add_after_shutdown; [|done]. by intros [= <- _].
  - unfold _flush_loop_wakeup. rewrite Hs. simpl. by intros [= <- _].
  - unfold shutdown. intros Hf. by apply flush_shutdown in Hf.
Qed.

Lemma run_keeps_shutdown ops : ∀ self w self' w',
  _shutdown self = true → run self ops w = (Returns self', w') →
  _shutdown self' = true.
Proof.
  induction ops as [|o ops IH]; intros self w self' w' Hs; simpl.
  - by intros [= <- _].
  - unfold bind. destruct (step_returns self o w) as (self1 & w1 & Hstep).
    rewrite Hstep. apply IH. by eapply step_keeps_shutdown.
Qed.

Lemma shutdown_sets_flag self w self' w' :
  shutdown self w = (Returns self', w') → _shutdown self' = true.
Proof. unfold shutdown. intros Hf. by apply flush_shutdown in Hf. Qed.

End buffer_claims.

Section shutdown_claims.
Import MetricsBuffer.

Lemma add_all_after_shutdown points : ∀ self w,
  _shutdown self = true → add_all self points w = (Returns self, w).
Proof.
  induction points as [|p points IH]; intros self w Hs; simpl; [done|].
  unfold bind. rewrite add_after_shutdown; [|done]. by apply IH.
Qed.

(** C3: (1) in every sequence of operations on any buffer, the buffer
    reached after a [shutdown] drops every [add]: the call returns normally
    and changes neither the buffer nor the world; (2) on a live, empty
    buffer, [shutdown] after [n] adds below the threshold hands exactly those
    [n] points to [export], in one call (none when [n = 0]), and neither a
    later [add] nor a later flush exports anything more. *)
Theorem C3_shutdown_drops_adds_and_flushes_once
    (self : t) (points : list MetricDataPoint.t) (w : World) :
  data self = [] → _shutdown self = false →
  (Z.of_nat (length points) < max_size self)%Z →
  (∀ (b : t) (before after : list op) (w0 : World),
     ∃ b' w', run b (before ++ [Shutdown] ++ after) w0 = (Returns b', w')
       ∧ ∀ p w1, add b' p w1 = (Returns b', w1))
  ∧ ∃ w', (let! b := add_all self points in shutdown b) w
            = (Returns (set_shutdown true self), w')
      ∧ export_calls w'
        = export_calls w ++ match points with [] => [] | _ => [points] end
      ∧ (∀ extra, add_all (set_shutdown true self) extra w'
                  = (Returns (set_shutdown true self), w'))
      ∧ _flush (set_shutdown true self) w' = (Returns (set_shutdown true self), w').
Proof.
  intros Hd Hs Hlt. split.
  - intros b before after w0.
    destruct (run_returns (before ++ [Shutdown] ++ after) b w0)
      as (b' & w' & Hrun).
    exists b', w'. split; [done|]. intros p w1. apply add_after_shutdown.
    rewrite run_app in Hrun. unfold bind in Hrun.
    destruct (run_returns before b w0) as (b1 & w1' & Hb). rewrite Hb in Hrun.
    simpl in Hrun. unfold bind in Hrun.
    destruct (shutdown_returns b1 w1') as (b2 & w2 & Hsh). rewrite Hsh in Hrun.
    eapply run_keeps_shutdown; [|exact Hrun]. by eapply shutdown_sets_flag.
  - unfold bind. rewrite add_all_below; [|done|rewrite Hd; simpl; lia].
    rewrite Hd. simpl. unfold shutdown.
    destruct points as [|p points].
    + exists w. rewrite flush_empty; [|done].
      assert (set_shutdown true (set_data [] self) = set_shutdown true self)
        as -> by (destruct self; simpl in *; by subst).
      split; [done|]. split; [by rewrite app_nil_r|].
      split; [intros; by apply add_all_after_shutdown|].
      by apply flush_empty.
    + destruct (flush_nonempty (set_shutdown true (set_data (p :: points) self)) w)
        as (w' & Hf & Hc & _); [done|].
      exists w'. rewrite Hf.
      assert (set_data [] (set_shutdown true (set_data (p :: points) self))
              = set_shutdown true self)
        as -> by (destruct self; simpl in *; by subst).
      split; [done|]. split; [done|].
      split; [intros; by apply add_all_after_shutdown|].
      by apply flush_empty.
Qed.

Lemma C3_shutdown_drops_adds_and_flushes_once_witness :
  let self := __init__ "http://localhost:8081/v1/metrics" "key" "svc" in
  let points := replicate 5 (sample_point 1) in
  (∀ (b : t) (before after : list op) (w0 : World),
     ∃ b' w', run b (before ++ [Shutdown] ++ after) w0 = (Returns b', w')
       ∧ ∀ p w1, add b' p w1 = (Returns b', w1))
  ∧ ∃ w', (let! b := add_all self points in shutdown b) quiet_world
            = (Returns (set_shutdown true self), w')
      ∧ export_calls w' = export_calls quiet_world ++ [points]
      ∧ (∀ extra, add_all (set_shutdown true self) extra w'
                  = (Returns (set_shutdown true self), w'))
      ∧ _flush (set_shutdown true self) w' = (Returns (set_shutdown true self), w').
Proof.
  apply (C3_shutdown_drops_adds_and_flushes_once
           (__init__ "http://localhost:8081/v1/metrics" "key" "svc")
           (replicate 5 (sample_point 1)) quiet_world);
    [reflexivity | reflexivity | simpl; lia].
Defined.

(** C5: when [export] raises on the batch of a flush, the flush still
    returns normally, with the buffer emptied and one line printed that
    reports the failure; the batch is kept nowhere, so that the next flush
    finds nothing to send.  Moreover no operation of the buffer ever raises,
    whatever the collector answers. *)
Theorem C5_export_failure_is_contained
    (self : t) (w w1 : World) (e : exn) :
  data self ≠ [] →
  MetricsExporter.export (exporter self) (data self) w = (Raises e, w1) →
  (∃ w2, _flush self w = (Returns (set_data [] self), w2)
     ∧ stdout w2 = stdout w1 ++ ["Failed to export metrics: " +:+ exn_str e]
     ∧ requests w2 = requests w1
     ∧ export_calls w2 = export_calls w1
     ∧ data (set_data [] self) = []
     ∧ _flush (set_data [] self) w2 = (Returns (set_data [] self), w2))
  ∧ (∀ b o w0, ∃ b' w', step b o w0 = (Returns b', w'))
  ∧ (∀ b w0, ∃ b' w', _flush b w0 = (Returns b', w')).
Proof.
  intros Hne Hexp. split; [|split; [apply step_returns|apply flush_returns]].
  unfold _flush at 1. destruct (data self) as [|p batch] eqn:Hd; [done|].
  unfold bind, try_except. simpl. rewrite Hexp. simpl.
  eexists. split; [reflexivity|]. simpl.
  split_and!; try reflexivity.
Qed.

Definition failing_world : World :=
  mkWorld (λ _ _, Response 503) (λ _, 1700000000%float) 0 [] [] []
          sample_urlparse (λ _ _ _, Returns ()).

Definition pending_buffer : t :=
  set_data [sample_point 1; sample_point 2]
           (__init__ "http://localhost:8081/v1/metrics" "key" "svc").

Example export_raises_on_503 :
  ∃ w1, MetricsExporter.export (exporter pending_buffer) (data pending_buffer)
          failing_world = (Raises (Exception "HTTP 503"), w1)
    ∧ length (requests w1) = 1.
Proof. eexists. split; [vm_compute; reflexivity | reflexivity]. Qed.

Lemma C5_export_failure_is_contained_witness :
  ∃ w2, _flush pending_buffer failing_world
          = (Returns (set_data [] pending_buffer), w2)
     ∧ stdout w2 = ["Failed to export metrics: HTTP 503"]
     ∧ length (requests w2) = 1
     ∧ _flush (set_data [] pending_buffer) w2
       = (Returns (set_data [] pending_buffer), w2).
Proof.
  destruct (C5_export_failure_is_contained pending_buffer failing_world
              (snd (MetricsExporter.export (exporter pending_buffer)
                      (data pending_buffer) failing_world))
              (Exception "HTTP 503"))
    as [(w2 & Hf & Hout & Hreq & _ & _ & Hnext) _].
  - discriminate.
  - vm_compute. reflexivity.
  - exists w2. split; [exact Hf|]. split; [rewrite Hout; reflexivity|].
    split; [rewrite Hreq; reflexivity | exact Hnext].
Defined.

End shutdown_claims.

(** ** Instruments *)

(** The world after one reading of the clock. *)
Definition after_clock_read (w : World) : World := (time_time w).2.

Lemma float_nonneg_not_neg (v : float) :
  (0 <=? v)%float = true → (v <? 0)%float = false.
Proof.
  rewrite leb_spec, ltb_spec.
  change (Prim2SF 0) with (S754_zero false).
  by destruct (Prim2SF v) as [[]|[]| |[] m e].
Qed.

Lemma counter_add_negative self d buffer w :
  (d <? 0)%float = true → CounterImpl.add self d buffer w = (Returns buffer, w).
Proof. unfold CounterImpl.add. by intros ->. Qed.

Lemma counter_add_nonnegative self v buffer w :
  (0 <=? v)%float = true →
  CounterImpl.add self v buffer w
  = MetricsBuffer.add buffer
      (MetricDataPoint.mk (CounterImpl.name self) (CounterImpl.tags self) v
                          (clock w (clock_reads w)) "counter")
      (after_clock_read w).
Proof.
  intros Hv. unfold CounterImpl.add. by rewrite (float_nonneg_not_neg _ Hv).
Qed.

(** C4: a negative [add] returns normally and leaves buffer and world as
    they were; a non-negative [add] passes exactly one point to the buffer,
    of type counter and with the value given; hence [add(-5)] followed by
    [add(3)] on a live buffer with room leaves exactly one more point in it,
    of value 3. *)
Theorem C4_counter_ignores_negative
    (self : CounterImpl.t) (buffer : MetricsBuffer.t) (w : World) (d v : float) :
  (d <? 0)%float = true → (0 <=? v)%float = true →
  MetricsBuffer._shutdown buffer = false →
  (Z.of_nat (length (MetricsBuffer.data buffer)) + 1 < MetricsBuffer.max_size buffer)%Z →
  CounterImpl.add self d buffer w = (Returns buffer, w)
  ∧ CounterImpl.add self v buffer w
    = MetricsBuffer.add buffer
        (MetricDataPoint.mk (CounterImpl.name self) (CounterImpl.tags self) v
                            (clock w (clock_reads w)) "counter")
        (after_clock_read w)
  ∧ (let! b := CounterImpl.add self (-5) buffer in CounterImpl.add self 3 b) w
    = (Returns
         (MetricsBuffer.set_data
            (MetricsBuffer.data buffer
               ++ [MetricDataPoint.mk (CounterImpl.name self)
                     (CounterImpl.tags self) 3 (clock w (clock_reads w))
                     "counter"])
            buffer),
       after_clock_read w).
Proof.
  intros Hd Hv Hs Hroom.
  split; [by apply counter_add_negative|].
  split; [by apply counter_add_nonnegative|].
  unfold bind. rewrite counter_add_negative; [|reflexivity].
  rewrite counter_add_nonnegative; [|reflexivity].
  by apply add_below.
Qed.

Definition requests_counter : CounterImpl.t :=
  CounterImpl.mk "requests" [("route", "/")].

Lemma C4_counter_ignores_negative_witness :
  let buffer := MetricsBuffer.__init__ "http://localhost:8081/v1/metrics" "key" "svc" in
  CounterImpl.add requests_counter (-5) buffer quiet_world
    = (Returns buffer, quiet_world)
  ∧ (let! b := CounterImpl.add requests_counter (-5) buffer in
     CounterImpl.add requests_counter 3 b) quiet_world
    = (Returns
         (MetricsBuffer.set_data
            [MetricDataPoint.mk "requests" [("route", "/")] 3 1700000000
                                "counter"]
            buffer),
       after_clock_read quiet_world).
Proof.
  destruct (C4_counter_ignores_negative requests_counter
              (MetricsBuffer.__init__ "http://localhost:8081/v1/metrics" "key" "svc")
              quiet_world (-5) 3)
    as (Hneg & _ & Hboth);
    [reflexivity | reflexivity | reflexivity | simpl; lia |].
  split; [exact Hneg | exact Hboth].
Defined.

Example fresh_gauge_inc_on_fresh_buffer :
  let buffer := MetricsBuffer.__init__ "http://localhost:8081/v1/metrics" "key" "svc" in
  GaugeImpl.inc (GaugeImpl.__init__ "queue.depth" []) buffer quiet_world
  = (Returns (GaugeImpl.mk "queue.depth" [] 1,
              MetricsBuffer.set_data
                [MetricDataPoint.mk "queue.depth" [] 1 1700000000 "gauge"]
                buffer),
     after_clock_read quiet_world).
Proof. reflexivity. Qed.

(** C10: a gauge is constructed with the accumulator at [0.0]; on a fresh
    gauge [inc] passes a point of value [1.0] to the buffer and [dec] a
    point of value [-1.0], [set] never having been called, and both return
    normally with the accumulator at that value. *)
Theorem C10_fresh_gauge_starts_at_zero
    (name : string) (tags : Tags) (buffer : MetricsBuffer.t) (w : World) :
  GaugeImpl._value (GaugeImpl.__init__ name tags) = 0%float
  ∧ (∃ b' w',
       MetricsBuffer.add buffer
         (MetricDataPoint.mk name tags 1 (clock w (clock_reads w)) "gauge")
         (after_clock_read w) = (Returns b', w')
       ∧ GaugeImpl.inc (GaugeImpl.__init__ name tags) buffer w
         = (Returns (GaugeImpl.mk name tags 1, b'), w'))
  ∧ (∃ b' w',
       MetricsBuffer.add buffer
         (MetricDataPoint.mk name tags (-1) (clock w (clock_reads w)) "gauge")
         (after_clock_read w) = (Returns b', w')
       ∧ GaugeImpl.dec (GaugeImpl.__init__ name tags) buffer w
         = (Returns (GaugeImpl.mk name tags (-1), b'), w')).
Proof.
  split; [reflexivity|]. split.
  - destruct (add_returns buffer
                (MetricDataPoint.mk name tags 1 (clock w (clock_reads w)) "gauge")
                (after_clock_read w)) as (b' & w' & Hadd).
    exists b', w'. split; [exact Hadd|].
    unfold GaugeImpl.inc, bind, time_time. simpl.
    change (0 + 1)%float with 1%float.
    unfold after_clock_read, time_time in Hadd. simpl in Hadd. by rewrite Hadd.
  - destruct (add_returns buffer
                (MetricDataPoint.mk name tags (-1) (clock w (clock_reads w)) "gauge")
                (after_clock_read w)) as (b' & w' & Hadd).
    exists b', w'. split; [exact Hadd|].
    unfold GaugeImpl.dec, bind, time_time. simpl.
    change (0 - 1)%float with (-1)%float.
    unfold after_clock_read, time_time in Hadd. simpl in Hadd. by rewrite Hadd.
Qed.

(** ** The registry *)

(** The calls an application makes on a registry. *)
Inductive call : Type :=
  | CallCounter (name : string) (tags : option Tags)
  | CallGauge (name : string) (tags : option Tags)
  | CallHistogram (name : string) (tags : option Tags).

Definition perform (self : MetricsRegistry.t) (c : call) : MetricsRegistry.t :=
  match c with
  | CallCounter name tags => (MetricsRegistry.counter self name tags).2
  | CallGauge name tags => (MetricsRegistry.gauge self name tags).2
  | CallHistogram name tags => (MetricsRegistry.histogram self name tags).2
  end.

Definition perform_all (self : MetricsRegistry.t) (cs : list call)
  : MetricsRegistry.t :=
  foldl perform self cs.

Section registry.
Import MetricsRegistry.

(** Entries are never removed nor replaced. *)
Definition extends (r r' : t) : Prop :=
  counters r ⊆ counters r' ∧ gauges r ⊆ gauges r'
  ∧ histograms r ⊆ histograms r'.

Lemma extends_refl r : extends r r.
Proof. by repeat split. Qed.

Lemma extends_trans r1 r2 r3 : extends r1 r2 → extends r2 r3 → extends r1 r3.
Proof.
  intros (?&?&?) (?&?&?). repeat split; by etrans.
Qed.

Lemma counter_extends r name tags : extends r (counter r name tags).2.
Proof.
  unfold counter.
  destruct (counters r !! _) eqn:Hl; simpl; [apply extends_refl|].
  repeat split; simpl; try done. by apply insert_subseteq.
Qed.

Lemma gauge_extends r name tags : extends r (gauge r name tags).2.
Proof.
  unfold gauge.
  destruct (gauges r !! _) eqn:Hl; simpl; [apply extends_refl|].
  repeat split; simpl; try done. by apply insert_subseteq.
Qed.

Lemma histogram_extends r name tags : extends r (histogram r name tags).2.
Proof.
  unfold histogram.
  destruct (histograms r !! _) eqn:Hl; simpl; [apply extends_refl|].
  repeat split; simpl; try done. by apply insert_subseteq.
Qed.

Lemma perform_all_extends cs : ∀ r, extends r (perform_all r cs).
Proof.
  induction cs as [|c cs IH]; intros r; simpl; [apply extends_refl|].
  eapply extends_trans; [|apply IH].
  destruct c; [apply counter_extends|apply gauge_extends|apply histogram_extends].
Qed.

(** After its first call the key is bound to the reference returned. *)
Lemma counter_bound r name tags :
  counters (counter r name tags).2 !! _metric_key name (default [] tags)
  = Some (counter r name tags).1.
Proof.
  unfold counter. destruct (counters r !! _) eqn:Hl; simpl; [done|].
  by rewrite lookup_insert_eq.
Qed.

Lemma gauge_bound r name tags :
  gauges (gauge r name tags).2 !! _metric_key name (default [] tags)
  = Some (gauge r name tags).1.
Proof.
  unfold gauge. destruct (gauges r !! _) eqn:Hl; simpl; [done|].
  by rewrite lookup_insert_eq.
Qed.

Lemma histogram_bound r name tags :
  histograms (histogram r name tags).2 !! _metric_key name (default [] tags)
  = Some (histogram r name tags).1.
Proof.
  unfold histogram. destruct (histograms r !! _) eqn:Hl; simpl; [done|].
  by rewrite lookup_insert_eq.
Qed.

(** A call on a bound key returns the reference bound and changes nothing. *)
Lemma counter_hit r name tags c :
  counters r !! _metric_key name (default [] tags) = Some c →
  counter r name tags = (c, r).
Proof. unfold counter. by intros ->. Qed.

Lemma gauge_hit r name tags g :
  gauges r !! _metric_key name (default [] tags) = Some g →
  gauge r name tags = (g, r).
Proof. unfold gauge. by intros ->. Qed.

Lemma histogram_hit r name tags h :
  histograms r !! _metric_key name (default [] tags) = Some h →
  histogram r name tags = (h, r).
Proof. unfold histogram. by intros ->. Qed.

Lemma counter_size r name tags :
  (size (counters (counter r name tags).2) ≤ S (size (counters r)))%nat
  ∧ (length (heap (counter r name tags).2) ≤ S (length (heap r)))%nat.
Proof.
  unfold counter. destruct (counters r !! _) eqn:Hl; simpl; [lia|].
  rewrite map_size_insert_None, length_app; [simpl; lia|done].
Qed.

Lemma gauge_size r name tags :
  (size (gauges (gauge r name tags).2) ≤ S (size (gauges r)))%nat
  ∧ (length (heap (gauge r name tags).2) ≤ S (length (heap r)))%nat.
Proof.
  unfold gauge. destruct (gauges r !! _) eqn:Hl; simpl; [lia|].
  rewrite map_size_insert_None, length_app; [simpl; lia|done].
Qed.

Lemma histogram_size r name tags :
  (size (histograms (histogram r name tags).2) ≤ S (size (histograms r)))%nat
  ∧ (length (heap (histogram r name tags).2) ≤ S (length (heap r)))%nat.
Proof.
  unfold histogram. destruct (histograms r !! _) eqn:Hl; simpl; [lia|].
  rewrite map_size_insert_None, length_app; [simpl; lia|done].
Qed.

End registry.

Section registry_claims.
Import MetricsRegistry.

Example counter_twice_on_fresh_registry :
  let r := __init__ "http://localhost:8081/v1/metrics" "key" "svc" in
  let '(c1, r1) := counter r "requests" (Some [("a", "1"); ("b", "2")]) in
  let '(c2, r2) := counter r1 "requests" (Some [("b", "2"); ("a", "1")]) in
  c1 = 0 ∧ c2 = 0 ∧ r2 = r1
  ∧ heap r2 = [ACounter (CounterImpl.mk "requests" [("a", "1"); ("b", "2")])].
Proof. vm_compute. done. Qed.

End registry_claims.

(** ** Attribute normalisation *)

Section dict_facts.
Context {V : Type}.

Lemma dict_set_fresh (k : string) (v : V) (d : Dict.t V) :
  k ∉ Dict.keys d → Dict.set k v d = d ++ [(k, v)].
Proof.
  induction d as [|[k' v'] d IH]; simpl; [done|].
  intros Hk. apply not_elem_of_cons in Hk as [Hne Hk].
  destruct (decide (k' = k)); [congruence|]. by rewrite IH.
Qed.

Lemma dict_get_fmap {W : Type} (f : V → W) (k : string) (d : Dict.t V) :
  Dict.get k (prod_map id f <$> d) = f <$> Dict.get k d.
Proof.
  induction d as [|[k' v'] d IH]; simpl; [done|].
  by destruct (decide (k' = k)).
Qed.

End dict_facts.

Section normalize_claims.
Import TracekitClient.
Variable str : value → string.

(** The normalised form of one value, in the words of the specification:
    scalars are kept, lists and tuples become the list of the strings of
    their elements, anything else becomes its string. *)
Definition normalized_value (v : value) : value :=
  match v with
  | VStr _ | VInt _ | VFloat _ | VBool _ => v
  | VList items | VTuple items => VList ((λ x, VStr (str x)) <$> items)
  | VNone | VDict _ | VObject _ _ => VStr (str v)
  end.

Lemma normalize_step_set normalized key v :
  normalize_step str normalized (key, v)
  = Dict.set key (normalized_value v) normalized.
Proof. by destruct v. Qed.

Lemma normalize_foldl (attributes : Dict.t value) : ∀ normalized : Dict.t value,
  NoDup (Dict.keys normalized ++ Dict.keys attributes) →
  foldl (normalize_step str) normalized attributes
  = normalized ++ (prod_map id normalized_value <$> attributes).
Proof.
  induction attributes as [|[k v] attributes IH]; intros normalized Hnd;
    cbn [foldl fmap list_fmap].
  - by rewrite app_nil_r.
  - rewrite normalize_step_set.
    assert (Hk : k ∉ Dict.keys normalized).
    { apply NoDup_app in Hnd as (_ & Hdisj & _). intros Hin.
      apply (Hdisj k Hin). simpl. by left. }
    rewrite dict_set_fresh by done.
    rewrite IH.
    + by rewrite <- app_assoc.
    + unfold Dict.keys in *. rewrite fmap_app. simpl.
      rewrite <- app_assoc. exact Hnd.
Qed.

(** C9: the normalised dictionary has the keys of the input, in the same
    order, and under each key the normalised form of the value the input
    holds there: a string, integer, float or boolean unchanged, a list or
    tuple as the list of the strings of its elements, any other value as its
    string. *)
Theorem C9_normalize_attributes (attributes : Dict.t value) :
  NoDup (Dict.keys attributes) →
  _normalize_attributes str attributes
    = prod_map id normalized_value <$> attributes
  ∧ Dict.keys (_normalize_attributes str attributes) = Dict.keys attributes
  ∧ ∀ key, Dict.get key (_normalize_attributes str attributes)
           = normalized_value <$> Dict.get key attributes.
Proof.
  intros Hnd.
  assert (Heq : _normalize_attributes str attributes
                = prod_map id normalized_value <$> attributes).
  { unfold _normalize_attributes. by rewrite normalize_foldl. }
  rewrite Heq. split; [done|]. split.
  - unfold Dict.keys. rewrite <- list_fmap_compose. by apply list_fmap_ext; intros ? [].
  - intros key. apply dict_get_fmap.
Qed.

End normalize_claims.

(** A stand-in for the builtin [str], for closed examples. *)
Definition sample_str (v : TracekitClient.value) : string :=
  match v with
  | TracekitClient.VStr s => s
  | TracekitClient.VInt n => pretty n
  | TracekitClient.VBool true => "True"
  | TracekitClient.VBool false => "False"
  | TracekitClient.VNone => "None"
  | _ => "<object>"
  end.

Definition sample_attributes : Dict.t TracekitClient.value :=
  [("user.id", TracekitClient.VInt 123);
   ("tags", TracekitClient.VTuple [TracekitClient.VInt 1; TracekitClient.VStr "a"]);
   ("parent", TracekitClient.VNone)].

Lemma C9_normalize_attributes_witness :
  NoDup (Dict.keys sample_attributes)
  ∧ TracekitClient._normalize_attributes sample_str sample_attributes
    = [("user.id", TracekitClient.VInt 123);
       ("tags", TracekitClient.VList [TracekitClient.VStr "1"; TracekitClient.VStr "a"]);
       ("parent", TracekitClient.VStr "None")].
Proof.
  assert (Hnd : NoDup (Dict.keys sample_attributes)) by compute_done.
  split; [exact Hnd|].
  exact (proj1 (C9_normalize_attributes sample_str sample_attributes Hnd)).
Defined.

(** ** The exporter *)

Definition sample_exporter : MetricsExporter.t :=
  MetricsExporter.mk "http://localhost:8081/v1/metrics" "key" "svc".

Definition payload_of (self : MetricsExporter.t) (metrics : list Otlp.Metric)
  : Otlp.Payload :=
  Otlp.mkPayload
    [Otlp.mkResourceMetrics
       [Otlp.mkKeyValue "service.name" (MetricsExporter.service_name self)]
       [Otlp.mkScopeMetrics "tracekit" metrics]].

Example py_int_truncates :
  py_int 1.5 = Returns 1%Z ∧ py_int (-1.5) = Returns (-1)%Z
  ∧ py_int (1700000000 * 1000000000) = Returns 1700000000000000000%Z.
Proof. by vm_compute. Qed.

Example split1_examples :
  PyStr.split1 ":" "req:counter" = ["req"; "counter"]
  ∧ PyStr.split1 ":" "a:b:counter" = ["a"; "b:counter"]
  ∧ PyStr.split1 ":" "plain" = ["plain"].
Proof. by vm_compute. Qed.

(** The example of the specification: one counter point named [req] and
    one gauge point named [mem]. *)
Example to_otlp_req_and_mem :
  MetricsExporter._to_otlp sample_exporter
    [MetricDataPoint.mk "req" [("route", "/")] 1 1700000000 "counter";
     MetricDataPoint.mk "mem" [] 512 1700000001 "gauge"]
  = Returns (payload_of sample_exporter
      [Otlp.mkMetric "req"
         (Otlp.Sum
            [Otlp.mkNumberDataPoint [Otlp.mkKeyValue "route" "/"]
               "1700000000000000000" 1]
            2 true);
       Otlp.mkMetric "mem"
         (Otlp.Gauge
            [Otlp.mkNumberDataPoint [] "1700000001000000000" 512])]).
Proof. vm_compute. reflexivity. Qed.

(** C1 fails on the code for a metric name that holds a colon: the key
    [http:requests:counter] is split at its first colon, so the one Counter
    group of the point below is emitted under the name [http], and under
    [gauge] instead of [sum], its type being read as [requests:counter]. *)
Theorem C1_colon_in_name_breaks_encoding :
  MetricsExporter._to_otlp sample_exporter
    [MetricDataPoint.mk "http:requests" [] 1 1700000000 "counter"]
  = Returns (payload_of sample_exporter
      [Otlp.mkMetric "http"
         (Otlp.Gauge
            [Otlp.mkNumberDataPoint [] "1700000000000000000" 1])]).
Proof. vm_compute. reflexivity. Qed.

Section exporter_grouping.
Import MetricsExporter.

Definition group_key (dp : MetricDataPoint.t) : string :=
  MetricDataPoint.name dp +:+ ":" +:+ MetricDataPoint.metric_type dp.

Definition colon_free (s : string) : Prop := PyStr.cut ":" s = None.

Lemma cut_colon_free n t :
  colon_free n → PyStr.cut ":" (n +:+ ":" +:+ t) = Some (n, t).
Proof.
  unfold colon_free. induction n as [|c n IH]; simpl; [done|].
  destruct (Ascii.eqb c ":"); [done|].
  destruct (PyStr.cut ":" n) as [[]|] eqn:Hc; [done|].
  intros _. by rewrite IH.
Qed.

(** The entry a key has in the dictionary once [dps] have been filed. *)
Definition filed (dps : list MetricDataPoint.t) (k : string)
  : string * list MetricDataPoint.t :=
  (k, filter (λ dp, group_key dp = k) dps).

Lemma keys_filed dps (ks : list string) : Dict.keys (filed dps <$> ks) = ks.
Proof.
  unfold Dict.keys.
  induction ks as [|k ks IH]; simpl; [done|]. by f_equal.
Qed.

Lemma contains_keys {V} (k : string) (d : Dict.t V) :
  Dict.contains k d = bool_decide (k ∈ Dict.keys d).
Proof.
  unfold Dict.contains. apply bool_decide_ext.
  induction d as [|[k' v] d IH]; simpl.
  - split; [by intros [? ?]|by intros ?%elem_of_nil].
  - destruct (decide (k' = k)) as [->|Hne].
    + split; [intros _; by left|by eauto].
    + rewrite IH. split; [by right|]. by intros [?|?]%elem_of_cons.
Qed.

Lemma filed_snoc_other dps dp (ks : list string) :
  group_key dp ∉ ks → filed (dps ++ [dp]) <$> ks = filed dps <$> ks.
Proof.
  intros Hk. apply list_fmap_ext. intros i k Hi. unfold filed.
  rewrite filter_app, filter_cons_False, filter_nil, app_nil_r; [done|].
  intros Heq. apply Hk. rewrite Heq. by eapply list_elem_of_lookup_2.
Qed.

Lemma alter_filed dps dp (ks : list string) :
  NoDup ks →
  Dict.alter (λ l, l ++ [dp]) (group_key dp) (filed dps <$> ks)
  = filed (dps ++ [dp]) <$> ks.
Proof.
  induction 1 as [|k ks Hk Hnd IH]; simpl; [done|].
  destruct (decide (k = group_key dp)) as [->|Hne]; f_equal.
  - unfold filed. by rewrite filter_app, filter_cons_True, filter_nil.
  - symmetry. by apply filed_snoc_other.
  - unfold filed.
    rewrite filter_app, filter_cons_False, filter_nil, app_nil_r; [done|].
    by intros Heq.
  - exact IH.
Qed.

Lemma group_step_filed dps dp (ks : list string) :
  NoDup ks →
  (∀ k, k ∈ ks ↔ ∃ d, d ∈ dps ∧ group_key d = k) →
  group_step (filed dps <$> ks) dp
  = filed (dps ++ [dp])
      <$> (if decide (group_key dp ∈ ks) then ks else ks ++ [group_key dp]).
Proof.
  intros Hnd Hks. unfold group_step. fold (group_key dp).
  rewrite contains_keys, keys_filed.
  destruct (decide (group_key dp ∈ ks)) as [Hin|Hout].
  - rewrite bool_decide_eq_true_2 by done. by apply alter_filed.
  - rewrite bool_decide_eq_false_2 by done.
    rewrite dict_set_fresh by (by rewrite keys_filed).
    assert (Hnone : filter (λ d, group_key d = group_key dp) dps = []).
    { destruct (filter _ dps) as [|d l] eqn:Hf; [done|].
      assert (Hd : d ∈ filter (λ d, group_key d = group_key dp) dps)
        by (rewrite Hf; left).
      apply list_elem_of_filter in Hd as [Hk Hd]. exfalso.
      apply Hout, Hks. eauto. }
    assert (filed dps <$> ks ++ [group_key dp]
            = (filed dps <$> ks) ++ [(group_key dp, [])]) as <-.
    { rewrite fmap_app. simpl. unfold filed at 2. by rewrite Hnone. }
    apply alter_filed. apply NoDup_app. split; [done|].
    split; [|apply NoDup_singleton].
    intros k Hk ->%list_elem_of_singleton. done.
Qed.

(** The dictionary built by the first loop: one entry per key occurring
    among the points, holding the points of that key in their order. *)
Lemma group_filed dps :
  ∃ ks : list string, group dps = filed dps <$> ks ∧ NoDup ks
    ∧ ∀ k, k ∈ ks ↔ ∃ d, d ∈ dps ∧ group_key d = k.
Proof.
  unfold group. induction dps as [|dp dps IH] using rev_ind.
  - exists []. split; [done|]. split; [constructor|].
    intros k. split; [by intros ?%elem_of_nil|].
    by intros (d & ?%elem_of_nil & _).
  - destruct IH as (ks & Hg & Hnd & Hks).
    rewrite foldl_app. simpl. rewrite Hg, group_step_filed by done.
    eexists. split; [reflexivity|].
    destruct (decide (group_key dp ∈ ks)) as [Hin|Hout].
    + split; [done|]. intros k. rewrite Hks. split.
      * intros (d & Hd & Hk). exists d. split; [|done].
        apply elem_of_app. by left.
      * intros (d & Hd & Hk). apply elem_of_app in Hd as [Hd|Hd]; [by eauto|].
        apply list_elem_of_singleton in Hd as ->. subst k. by apply Hks.
    + split.
      * apply NoDup_app. split; [done|]. split; [|apply NoDup_singleton].
        intros k Hk ->%list_elem_of_singleton. done.
      * intros k. rewrite elem_of_app, Hks, list_elem_of_singleton. split.
        -- intros [(d & Hd & Hk)| ->].
           ++ exists d. split; [|done]. apply elem_of_app. by left.
           ++ exists dp. split; [|done]. apply elem_of_app. right.
              by apply list_elem_of_singleton.
        -- intros (d & Hd & Hk). apply elem_of_app in Hd as [Hd|Hd].
           ++ left. by eauto.
           ++ apply list_elem_of_singleton in Hd as ->. by right.
Qed.

End exporter_grouping.

Section exporter_encoding.
Import MetricsExporter.

(** The entry of a data point, as the specification words it. *)
Definition point_encoded (dp : MetricDataPoint.t) (p : Otlp.NumberDataPoint)
  : Prop :=
  Otlp.attributes p
    = (λ kv : string * string, Otlp.mkKeyValue kv.1 kv.2)
        <$> MetricDataPoint.tags dp
  ∧ Otlp.asDouble p = MetricDataPoint.value dp
  ∧ ∃ ns, py_int (MetricDataPoint.timestamp dp * 1000000000)%float = Returns ns
          ∧ Otlp.timeUnixNano p = pretty ns.

Definition pair_of (dp : MetricDataPoint.t) : string * string :=
  (MetricDataPoint.name dp, MetricDataPoint.metric_type dp).

(** The metric entry of the group [g] of the points [dps]. *)
Definition encodes (dps : list MetricDataPoint.t) (g : string * string)
    (m : Otlp.Metric) : Prop :=
  Otlp.name m = g.1
  ∧ ∃ points,
      Forall2 point_encoded (filter (λ dp, pair_of dp = g) dps) points
      ∧ Otlp.aggregation m
        = if decide (g.2 = "counter") then Otlp.Sum points 2 true
          else Otlp.Gauge points.

Definition well_formed (dp : MetricDataPoint.t) : Prop :=
  colon_free (MetricDataPoint.name dp)
  ∧ ∃ ns, py_int (MetricDataPoint.timestamp dp * 1000000000)%float = Returns ns.

Lemma omap_Forall2 {A B} (f : A → outcome B) (R : A → B → Prop) (l : list A) :
  (∀ x, x ∈ l → ∃ y, f x = Returns y ∧ R x y) →
  ∃ ys, omap f l = Returns ys ∧ Forall2 R l ys.
Proof.
  induction l as [|x l IH]; intros Hl; simpl.
  - exists []. by split.
  - destruct (Hl x) as (y & -> & Hy); [by left|].
    destruct IH as (ys & -> & Hys); [intros z Hz; apply Hl; by right|].
    exists (y :: ys). split; [done|]. by constructor.
Qed.

Lemma filter_ext_in {A} (P Q : A → Prop) `{∀ x, Decision (P x)}
    `{∀ x, Decision (Q x)} (l : list A) :
  (∀ x, x ∈ l → P x ↔ Q x) → filter P l = filter Q l.
Proof.
  induction l as [|x l IH]; intros Hl; [done|].
  assert (Hx : P x ↔ Q x) by (apply Hl; by left).
  assert (IH' : filter P l = filter Q l)
    by (apply IH; intros z Hz; apply Hl; by right).
  destruct (decide (P x)) as [HP|HP].
  - rewrite !filter_cons_True by tauto. by rewrite IH'.
  - rewrite !filter_cons_False by tauto. done.
Qed.

Lemma otlp_data_point_encoded dp :
  (∃ ns, py_int (MetricDataPoint.timestamp dp * 1000000000)%float = Returns ns) →
  ∃ p, otlp_data_point dp = Returns p ∧ point_encoded dp p.
Proof.
  intros (ns & Hns). unfold otlp_data_point. rewrite Hns. simpl.
  eexists. split; [reflexivity|]. unfold point_encoded. simpl. eauto.
Qed.

Lemma group_key_pair a b :
  colon_free (MetricDataPoint.name a) → colon_free (MetricDataPoint.name b) →
  group_key a = group_key b ↔ pair_of a = pair_of b.
Proof.
  intros Ha Hb. unfold group_key, pair_of. split.
  - intros Heq.
    pose proof (cut_colon_free _ (MetricDataPoint.metric_type a) Ha) as Hca.
    pose proof (cut_colon_free _ (MetricDataPoint.metric_type b) Hb) as Hcb.
    rewrite Heq in Hca. congruence.
  - by intros [= -> ->].
Qed.

Lemma metric_of_group_filed dps d :
  (∀ dp, dp ∈ dps → well_formed dp) → d ∈ dps →
  ∃ m, metric_of_group (filed dps (group_key d)) = Returns m
       ∧ encodes dps (pair_of d) m.
Proof.
  intros Hwf Hd. unfold metric_of_group, filed, PyStr.split1.
  unfold group_key at 1. rewrite cut_colon_free by apply (Hwf d Hd).
  rewrite (filter_ext_in _ (λ dp, pair_of dp = pair_of d)).
  2:{ intros x Hx. apply group_key_pair; by apply Hwf. }
  destruct (omap_Forall2 otlp_data_point point_encoded
              (filter (λ dp, pair_of dp = pair_of d) dps)) as (ps & -> & Hps).
  { intros x [_ Hx]%list_elem_of_filter.
    apply otlp_data_point_encoded, (Hwf x Hx). }
  simpl. destruct (decide (MetricDataPoint.metric_type d = "counter")) as [Hc|Hc].
  - eexists. split; [reflexivity|]. split; [done|]. exists ps. split; [done|].
    simpl. by rewrite decide_True.
  - eexists. split; [reflexivity|]. split; [done|]. exists ps. split; [done|].
    simpl. by rewrite decide_False.
Qed.

End exporter_encoding.

Section exporter_correct.
Import MetricsExporter.

Definition pair_of_key (k : string) : string * string :=
  match PyStr.cut ":" k with
  | Some p => p
  | None => (k, EmptyString)
  end.

Lemma pair_of_group_key d :
  colon_free (MetricDataPoint.name d) → pair_of_key (group_key d) = pair_of d.
Proof.
  intros Hd. unfold pair_of_key, group_key. by rewrite cut_colon_free.
Qed.

(** X8: Off the names that hold a colon, and for timestamps that [int] accepts,
    [_to_otlp] does what C1 says: it returns a payload with exactly one
    metric entry per pair (name, type) occurring among the points, named
    after the group, holding the entries of the points of the group in
    their order, under [sum] with temporality 2 and monotonic for the type
    counter, under [gauge] otherwise. *)
Theorem to_otlp_groups_by_name_and_type
    (self : MetricsExporter.t) (dps : list MetricDataPoint.t) :
  (∀ dp, dp ∈ dps → well_formed dp) →
  ∃ (groups : list (string * string)) (metrics : list Otlp.Metric),
    _to_otlp self dps = Returns (payload_of self metrics)
    ∧ NoDup groups
    ∧ (∀ g, g ∈ groups ↔ ∃ dp, dp ∈ dps ∧ pair_of dp = g)
    ∧ Forall2 (encodes dps) groups metrics.
Proof.
  intros Hwf. destruct (group_filed dps) as (ks & Hg & Hnd & Hks).
  assert (Hrep : ∀ k, k ∈ ks →
            ∃ d, d ∈ dps ∧ group_key d = k ∧ pair_of_key k = pair_of d).
  { intros k (d & Hd & <-)%Hks. exists d. split; [done|]. split; [done|].
    apply pair_of_group_key, (Hwf d Hd). }
  destruct (omap_Forall2 metric_of_group
              (λ entry m, encodes dps (pair_of_key entry.1) m)
              (filed dps <$> ks)) as (ms & Hms & Hall).
  { intros x (k & -> & Hk)%list_elem_of_fmap.
    destruct (Hrep k Hk) as (d & Hd & <- & Hp). simpl. rewrite Hp.
    by apply metric_of_group_filed. }
  exists (pair_of_key <$> ks), ms. split; [|split; [|split]].
  - unfold _to_otlp. by rewrite Hg, Hms.
  - apply NoDup_fmap_2_strong; [|done]. intros k1 k2 Hk1 Hk2 Heq.
    destruct (Hrep k1 Hk1) as (d1 & Hd1 & <- & Hp1).
    destruct (Hrep k2 Hk2) as (d2 & Hd2 & <- & Hp2).
    apply group_key_pair; [apply (Hwf d1 Hd1)|apply (Hwf d2 Hd2)|congruence].
  - intros g. rewrite list_elem_of_fmap. split.
    + intros (k & -> & Hk). destruct (Hrep k Hk) as (d & Hd & _ & Hp). eauto.
    + intros (d & Hd & <-). exists (group_key d). split.
      * symmetry. apply pair_of_group_key, (Hwf d Hd).
      * apply Hks. eauto.
  - apply Forall2_fmap_l.
    apply (Forall2_fmap_l (filed dps)
             (λ entry m, encodes dps (pair_of_key entry.1) m)) in Hall.
    exact Hall.
Qed.

Example req_and_mem_are_well_formed :
  ∀ dp, dp ∈ [MetricDataPoint.mk "req" [("route", "/")] 1 1700000000 "counter";
              MetricDataPoint.mk "mem" [] 512 1700000001 "gauge"] →
        well_formed dp.
Proof.
  intros dp Hdp. apply elem_of_cons in Hdp as [->|Hdp].
  - split; [reflexivity|]. eexists. vm_compute. reflexivity.
  - apply list_elem_of_singleton in Hdp as ->.
    split; [reflexivity|]. eexists. vm_compute. reflexivity.
Qed.

End exporter_correct.

(** ** Hand-off from the buffer to the exporter, for calls that do not
    overlap

    When each call runs to its end before the next one begins, the points
    handed to [export] so far, followed by the points still pending, are
    the points accepted so far, in the order they were added. *)

Fixpoint accepted (down : bool) (ops : list op) : list MetricDataPoint.t :=
  match ops with
  | [] => []
  | Add p :: ops' => if down then accepted down ops' else p :: accepted down ops'
  | Wakeup :: ops' => accepted down ops'
  | Shutdown :: ops' => accepted true ops'
  end.

Section handoff.
Import MetricsBuffer.

Definition handed_or_pending (self : t) (w : World) : list MetricDataPoint.t :=
  concat (export_calls w) ++ data self.

Lemma flush_handoff self w :
  ∃ self' w', _flush self w = (Returns self', w')
    ∧ handed_or_pending self' w' = handed_or_pending self w
    ∧ _shutdown self' = _shutdown self
    ∧ (data self' = []).
Proof.
  unfold handed_or_pending. destruct (data self) as [|p batch] eqn:Hd.
  - exists self, w. rewrite flush_empty by done. by rewrite Hd.
  - destruct (flush_nonempty self w) as (w' & Hf & Hc & _); [by rewrite Hd|].
    exists (set_data [] self), w'. split; [done|]. simpl.
    rewrite Hc, Hd, concat_app. simpl. by rewrite !app_nil_r.
Qed.

Lemma step_handoff self o w :
  ∃ self' w', step self o w = (Returns self', w')
    ∧ handed_or_pending self' w'
      = handed_or_pending self w ++ accepted (_shutdown self) [o]
    ∧ _shutdown self'
      = match o with Shutdown => true | _ => _shutdown self end.
Proof.
  destruct o as [p| |]; simpl.
  - unfold add. destruct (_shutdown self) eqn:Hs.
    + exists self, w. by rewrite app_nil_r.
    + destruct (bool_decide _).
      * destruct (flush_handoff (set_data (data self ++ [p]) self) w)
          as (self' & w' & Hf & Hh & Hs' & _).
        exists self', w'. split; [done|]. rewrite Hh. simpl in *.
        unfold handed_or_pending. simpl. rewrite app_assoc. by rewrite Hs'.
      * eexists _, w. split; [done|]. split; [|done].
        unfold handed_or_pending. simpl. by rewrite app_assoc.
  - unfold _flush_loop_wakeup. destruct (_shutdown self) eqn:Hs; simpl.
    + exists self, w. by rewrite app_nil_r.
    + destruct (flush_handoff self w) as (self' & w' & Hf & Hh & Hs' & _).
      exists self', w'. rewrite app_nil_r. split; [done|]. split; [done|].
      by rewrite Hs'.
  - unfold shutdown.
    destruct (flush_handoff (set_shutdown true self) w)
      as (self' & w' & Hf & Hh & Hs' & _).
    exists self', w'. rewrite app_nil_r. by split.
Qed.

Lemma accepted_cons down o ops :
  accepted down (o :: ops)
  = accepted down [o]
      ++ accepted (match o with Shutdown => true | _ => down end) ops.
Proof. destruct o, down; simpl; by rewrite ?app_nil_r. Qed.

Theorem run_handoff ops : ∀ self w,
  ∃ self' w', run self ops w = (Returns self', w')
    ∧ handed_or_pending self' w'
      = handed_or_pending self w ++ accepted (_shutdown self) ops.
Proof.
  induction ops as [|o ops IH]; intros self w.
  - exists self, w. simpl. by rewrite app_nil_r.
  - destruct (step_handoff self o w) as (self1 & w1 & Hstep & Hh1 & Hs1).
    destruct (IH self1 w1) as (self' & w' & Hrun & Hh).
    exists self', w'. split.
    + simpl. unfold bind. by rewrite Hstep.
    + rewrite Hh, Hh1, Hs1, (accepted_cons _ o ops). by rewrite app_assoc.
Qed.

(** In particular such a run, when it ends with [shutdown], has handed over
    every point it accepted, each once and in order, and nothing is
    pending. *)
Corollary run_shutdown_hands_over_everything ops self w :
  ∃ self' w', run self (ops ++ [Shutdown]) w = (Returns self', w')
    ∧ data self' = []
    ∧ concat (export_calls w')
      = concat (export_calls w) ++ data self ++ accepted (_shutdown self) ops.
Proof.
  destruct (run_handoff ops self w) as (self1 & w1 & Hrun & Hh).
  destruct (flush_handoff (set_shutdown true self1) w1)
    as (self' & w' & Hf & Hh' & _ & Hd).
  exists self', w'. split; [|split; [done|]].
  - rewrite run_app. unfold bind. rewrite Hrun. simpl. unfold bind, shutdown.
    by rewrite Hf.
  - unfold handed_or_pending in *. rewrite Hd, app_nil_r in Hh'.
    rewrite Hh'. simpl. rewrite Hh. by rewrite app_assoc.
Qed.

End handoff.

(** * Part III: further properties of the code *)

(** ** The buffer: effects of a run *)

Section buffer_effects.
Import MetricsBuffer.

(** What a call of [export] does to the world, in full: the call is
    recorded, at most one request is sent, nothing is printed, and the
    collector and the clock are left alone. *)
Lemma export_effects ex batch w :
  ∃ r w', MetricsExporter.export ex batch w = (r, w')
    ∧ export_calls w' = export_calls w ++ [batch]
    ∧ stdout w' = stdout w
    ∧ (length (requests w) ≤ length (requests w') ≤ S (length (requests w)))%nat
    ∧ (batch = [] → requests w' = requests w).
Proof.
  unfold MetricsExporter.export, bind, enter_export, lift, parse_url,
    new_connection, request_getresponse, response_read, ret, raise.
  destruct batch as [|p batch]; simpl.
  { eexists _, _. split; [reflexivity|]. simpl. split_and!; try done; lia. }
  repeat (case_match; simpl in * ); simplify_eq;
    (eexists _, _; split; [reflexivity|]; simpl; rewrite ?length_app; simpl;
     split_and!; try done; lia).
Qed.

(** The effects of one flush: the batches it hands to [export] (none for an
    empty buffer, the pending list otherwise), at most one request and one
    printed line per batch. *)
Lemma flush_effects self w :
  ∃ w' batches, _flush self w = (Returns (set_data [] self), w')
    ∧ batches = match data self with [] => [] | d => [d] end
    ∧ export_calls w' = export_calls w ++ batches
    ∧ (length (requests w') ≤ length (requests w) + length batches)%nat
    ∧ (length (stdout w') ≤ length (stdout w) + length batches)%nat.
Proof.
  unfold _flush. destruct (data self) as [|p batch] eqn:Hd.
  - exists w, []. rewrite app_nil_r. split_and!; try done; try (simpl; lia).
    unfold ret. f_equal. destruct self; simpl in *; by subst.
  - unfold bind, try_except. simpl.
    destruct (export_effects (exporter self) (p :: batch) w)
      as (r & w' & -> & Hc & Hs & Hr & _).
    destruct r as [[]|e]; simpl.
    + exists w', [p :: batch]. rewrite Hs. split_and!; try done; simpl; lia.
    + eexists _, [p :: batch]. split; [reflexivity|]. simpl.
      rewrite length_app, Hs. simpl. split_and!; try done; lia.
Qed.

Lemma step_effects self o w :
  ∃ self' w' batches, step self o w = (Returns self', w')
    ∧ export_calls w' = export_calls w ++ batches
    ∧ Forall (λ b, b ≠ []) batches
    ∧ concat batches ++ data self'
      = data self ++ accepted (_shutdown self) [o]
    ∧ _shutdown self' = match o with Shutdown => true | _ => _shutdown self end
    ∧ max_size self' = max_size self
    ∧ (length (requests w') ≤ length (requests w) + length batches)%nat
    ∧ (length (stdout w') ≤ length (stdout w) + length batches)%nat
    ∧ (Z.of_nat (length (data self)) < max_size self →
       Z.of_nat (length (data self')) < max_size self)%Z.
Proof.
  assert (Hflush : ∀ b, ∃ w' batches,
            _flush b w = (Returns (set_data [] b), w')
            ∧ export_calls w' = export_calls w ++ batches
            ∧ Forall (λ b, b ≠ []) batches
            ∧ concat batches = data b
            ∧ (length (requests w') ≤ length (requests w) + length batches)%nat
            ∧ (length (stdout w') ≤ length (stdout w) + length batches)%nat).
  { intros b. destruct (flush_effects b w) as (w' & bs & Hf & Hb & Hc & Hr & Hs).
    exists w', bs. split_and!; try done; subst bs.
    - destruct (data b); [constructor|]. by repeat constructor.
    - destruct (data b); simpl; by rewrite ?app_nil_r. }
  destruct o as [p| |]; simpl.
  - unfold add. destruct (_shutdown self) eqn:Hs.
    + exists self, w, []. rewrite !app_nil_r. simpl.
      split_and!; try done; lia.
    + destruct (bool_decide _) eqn:Hfull.
      * destruct (Hflush (set_data (data self ++ [p]) self))
          as (w' & bs & Hf & Hc & Hne & Hcat & Hr & Hso).
        exists (set_data [] (set_data (data self ++ [p]) self)), w', bs.
        simpl in *. rewrite app_nil_r. split_and!; try done. lia.
      * apply bool_decide_eq_false in Hfull. simpl in Hfull.
        exists (set_data (data self ++ [p]) self), w, [].
        rewrite app_nil_r. simpl. rewrite length_app in *. simpl in *.
        split_and!; try done; lia.
  - unfold _flush_loop_wakeup. destruct (_shutdown self) eqn:Hs; simpl.
    + exists self, w, []. rewrite !app_nil_r. simpl.
      split_and!; try done; lia.
    + destruct (Hflush self) as (w' & bs & Hf & Hc & Hne & Hcat & Hr & Hso).
      exists (set_data [] self), w', bs. simpl.
      rewrite !app_nil_r. split_and!; try done. lia.
  - unfold shutdown.
    destruct (Hflush (set_shutdown true self))
      as (w' & bs & Hf & Hc & Hne & Hcat & Hr & Hso).
    exists (set_data [] (set_shutdown true self)), w', bs. simpl in *.
    rewrite !app_nil_r. split_and!; try done. lia.
Qed.

End buffer_effects.

Section buffer_runs.
Import MetricsBuffer.

Lemma run_effects ops : ∀ self w,
  ∃ self' w' batches, run self ops w = (Returns self', w')
    ∧ export_calls w' = export_calls w ++ batches
    ∧ Forall (λ b, b ≠ []) batches
    ∧ concat batches ++ data self' = data self ++ accepted (_shutdown self) ops
    ∧ max_size self' = max_size self
    ∧ (length (requests w') ≤ length (requests w) + length batches)%nat
    ∧ (length (stdout w') ≤ length (stdout w) + length batches)%nat
    ∧ (Z.of_nat (length (data self)) < max_size self →
       Z.of_nat (length (data self')) < max_size self)%Z.
Proof.
  induction ops as [|o ops IH]; intros self w.
  - exists self, w, []. simpl. rewrite !app_nil_r.
    split_and!; try done; lia.
  - destruct (step_effects self o w)
      as (self1 & w1 & bs1 & Hstep & Hc1 & Hne1 & Hcat1 & Hs1 & Hm1 & Hr1 & Ho1 & Hb1).
    destruct (IH self1 w1)
      as (self' & w' & bs & Hrun & Hc & Hne & Hcat & Hm & Hr & Ho & Hb).
    exists self', w', (bs1 ++ bs). split_and!.
    + simpl. unfold bind. by rewrite Hstep.
    + by rewrite Hc, Hc1, app_assoc.
    + by apply Forall_app.
    + rewrite concat_app, <- app_assoc, Hcat, app_assoc, Hcat1, Hs1.
      rewrite (accepted_cons _ o ops). by rewrite app_assoc.
    + congruence.
    + rewrite length_app. lia.
    + rewrite length_app. lia.
    + rewrite Hm1 in Hb. auto.
Qed.

(** For calls that do not overlap, and whatever the collector answers, the
    batches handed to [export] during a run, followed by the points still
    pending, are the points pending before followed by the points accepted
    during the run, in the order of their addition. *)
Theorem buffer_run_hands_over_in_order (ops : list op) (self : t) (w : World) :
  ∃ self' w' batches, run self ops w = (Returns self', w')
    ∧ export_calls w' = export_calls w ++ batches
    ∧ concat batches ++ data self'
      = data self ++ accepted (_shutdown self) ops.
Proof.
  destruct (run_effects ops self w)
    as (self' & w' & bs & Hrun & Hc & _ & Hcat & _).
  by exists self', w', bs.
Qed.

(** X3: The buffer never calls [export] on an empty list, and a run sends at
    most one request and prints at most one line per batch handed over. *)
Theorem buffer_run_effects_bounded (ops : list op) (self : t) (w : World) :
  ∃ self' w' batches, run self ops w = (Returns self', w')
    ∧ export_calls w' = export_calls w ++ batches
    ∧ Forall (λ b, b ≠ []) batches
    ∧ (length (requests w') ≤ length (requests w) + length batches)%nat
    ∧ (length (stdout w') ≤ length (stdout w) + length batches)%nat.
Proof.
  destruct (run_effects ops self w)
    as (self' & w' & bs & Hrun & Hc & Hne & _ & _ & Hr & Ho & _).
  by exists self', w', bs.
Qed.

(** X4: The pending list stays shorter than [max_size]: if it is so before a
    run it is so after it, and [max_size] itself is never changed. *)
Theorem buffer_pending_stays_below_max_size
    (ops : list op) (self : t) (w : World) :
  (Z.of_nat (length (data self)) < max_size self)%Z →
  ∃ self' w', run self ops w = (Returns self', w')
    ∧ max_size self' = max_size self
    ∧ (Z.of_nat (length (data self')) < max_size self)%Z.
Proof.
  intros Hlt. destruct (run_effects ops self w)
    as (self' & w' & bs & Hrun & _ & _ & _ & Hm & _ & _ & Hb).
  exists self', w'. auto.
Qed.

Lemma buffer_pending_stays_below_max_size_witness :
  ∃ self' w',
    run (__init__ "http://localhost:8081/v1/metrics" "key" "svc")
        (replicate 250 (Add (sample_point 1)) ++ [Wakeup; Add (sample_point 2)])
        failing_world = (Returns self', w')
    ∧ max_size self' = 100%Z
    ∧ (Z.of_nat (length (data self')) < 100)%Z.
Proof.
  apply (buffer_pending_stays_below_max_size
           (replicate 250 (Add (sample_point 1)) ++ [Wakeup; Add (sample_point 2)])
           (__init__ "http://localhost:8081/v1/metrics" "key" "svc")
           failing_world).
  simpl. lia.
Defined.

End buffer_runs.

(** ** The exporter: outcome of [export], failures of the encoding *)

Section exporter_more.
Import MetricsExporter.

(** The connection [export] makes for a parsed endpoint, and the request it
    sends over it for a payload. *)
Definition is_https (url : Url.t) : bool :=
  bool_decide (Url.scheme url = "https").

Definition port_of (url : Url.t) (port : option Z) : Z :=
  port_or port (if is_https url then 443 else 80)%Z.

Definition request_of (self : MetricsExporter.t) (url : Url.t)
    (port : option Z) (payload : Otlp.Payload) : HttpRequest :=
  mkHttpRequest (is_https url) (Url.hostname url) (port_of url port)
    (Url.path url)
    [("Content-Type", "application/json"); ("X-API-Key", api_key self)]
    payload.

(** What [export] has done when it has raised before any exchange. *)
Definition raised_before_exchange (self : MetricsExporter.t)
    (batch : list MetricDataPoint.t) (w : World) (e : exn) : Prop :=
  ∃ w', export self batch w = (Raises e, w') ∧ requests w' = requests w.

(** X5: For a non-empty list that [_to_otlp] encodes, when [urlparse]
    accepts the endpoint, its port is readable and the connection object is
    made, [export] makes exactly one request: on a connection to the host
    and port of the endpoint (443 or 80 when it names none), over TLS for
    the scheme [https], for the path of the endpoint, with the API key and
    the payload.  It returns normally exactly when a response of status 200
    arrives and is read; it raises [Exception("HTTP <status>")] on any other
    status, what [read] raises on a response of status 200 that cannot be
    read, and what the exchange raises when it fails.  When [urlparse], the
    port or the construction of the connection raises, [export] raises the
    same and makes no request. *)
Theorem export_succeeds_iff_status_200
    (self : MetricsExporter.t) (batch : list MetricDataPoint.t)
    (payload : Otlp.Payload) (url : Url.t) (port : option Z) (w : World) :
  batch ≠ [] → _to_otlp self batch = Returns payload →
  urlparse w (endpoint self) = Returns url →
  Url.port url = Returns port →
  connection_init w (is_https url) (Url.hostname url) (port_of url port)
    = Returns () →
  (∃ r w', export self batch w = (r, w')
     ∧ requests w' = requests w ++ [request_of self url port payload]
     ∧ (r = Returns ()
        ↔ collector w (length (requests w)) (request_of self url port payload)
          = Response 200)
     ∧ (∀ status,
          collector w (length (requests w)) (request_of self url port payload)
            = Response status
          ∨ (∃ e, collector w (length (requests w))
                    (request_of self url port payload) = Unreadable status e) →
          status ≠ 200%Z →
          r = Raises (Exception ("HTTP " +:+ pretty status)))
     ∧ (∀ e,
          collector w (length (requests w)) (request_of self url port payload)
            = Unreadable 200 e → r = Raises e)
     ∧ (∀ e,
          collector w (length (requests w)) (request_of self url port payload)
            = Failure e → r = Raises e))
  ∧ (∀ w0 e, urlparse w0 (endpoint self) = Raises e →
             raised_before_exchange self batch w0 e)
  ∧ (∀ w0 url0 e, urlparse w0 (endpoint self) = Returns url0 →
                  Url.port url0 = Raises e →
                  raised_before_exchange self batch w0 e)
  ∧ (∀ w0 url0 port0 e,
       urlparse w0 (endpoint self) = Returns url0 →
       Url.port url0 = Returns port0 →
       connection_init w0 (is_https url0) (Url.hostname url0)
         (port_of url0 port0) = Raises e →
       raised_before_exchange self batch w0 e).
Proof.
  intros Hne Hp Hurl Hport Hconn.
  destruct batch as [|p batch]; [done|].
  split_and!.
  - unfold export, bind, enter_export, lift, parse_url, new_connection,
      request_getresponse, response_read, ret, raise.
    simpl. rewrite Hp. simpl. rewrite Hurl. simpl. rewrite Hport. simpl.
    fold (is_https url). fold (port_of url port). rewrite Hconn. simpl.
    fold (request_of self url port payload).
    destruct (collector w (length (requests w))
                (request_of self url port payload))
      as [status|status e|e] eqn:Hcol; simpl.
    + destruct (decide (status ≠ 200%Z)) as [Hs|Hs]; simpl.
      * eexists _, _. split; [reflexivity|]. simpl. split_and!; try done.
        -- split; [done|]. intros [= ->]. done.
        -- intros s [[= <-]|[e He]] _; done.
      * apply dec_stable in Hs. subst status.
        eexists _, _. split; [reflexivity|]. simpl. split_and!; try done.
        intros s [[= <-]|[e He]] Hs; done.
    + destruct (decide (status ≠ 200%Z)) as [Hs|Hs]; simpl.
      * eexists _, _. split; [reflexivity|]. simpl. split_and!; try done.
        -- intros s [?|[e' [= <- _]]] _; done.
        -- intros e' [= -> _]. done.
      * apply dec_stable in Hs. subst status.
        eexists _, _. split; [reflexivity|]. simpl. split_and!; try done.
        -- intros s [?|[e' [= <- _]]] Hs; done.
        -- by intros e' [= <-].
    + eexists _, _. split; [reflexivity|]. simpl. split_and!; try done.
      * intros s [?|[e' ?]] _; done.
      * by intros e' [= <-].
  - intros w0 e He. unfold raised_before_exchange, export, bind, enter_export,
      lift, parse_url. simpl. rewrite Hp. simpl. rewrite He. eauto.
  - intros w0 url0 e Hu He. unfold raised_before_exchange, export, bind,
      enter_export, lift, parse_url. simpl. rewrite Hp. simpl. rewrite Hu.
    simpl. rewrite He. eauto.
  - intros w0 url0 port0 e Hu Hpt He. unfold raised_before_exchange, export,
      bind, enter_export, lift, parse_url, new_connection. simpl.
    rewrite Hp. simpl. rewrite Hu. simpl. rewrite Hpt. simpl.
    fold (is_https url0). fold (port_of url0 port0). rewrite He. eauto.
Qed.

Lemma export_succeeds_iff_status_200_witness :
  ∃ w', export sample_exporter [sample_point 1] quiet_world = (Returns (), w')
    ∧ requests w'
      = [mkHttpRequest false (Some "localhost") 8081 "/v1/metrics"
           [("Content-Type", "application/json"); ("X-API-Key", "key")]
           (payload_of sample_exporter
              [Otlp.mkMetric "requests"
                 (Otlp.Sum
                    [Otlp.mkNumberDataPoint [Otlp.mkKeyValue "route" "/"]
                       "1700000000000000000" 1] 2 true)])].
Proof.
  destruct (export_succeeds_iff_status_200 sample_exporter [sample_point 1]
              (payload_of sample_exporter
                 [Otlp.mkMetric "requests"
                    (Otlp.Sum
                       [Otlp.mkNumberDataPoint [Otlp.mkKeyValue "route" "/"]
                          "1700000000000000000" 1] 2 true)])
              (Url.mk "http" (Some "localhost") (Returns (Some 8081%Z))
                      "/v1/metrics")
              (Some 8081%Z) quiet_world)
    as ((r & w' & Hex & Hreq & Hok & _) & _).
  - discriminate.
  - vm_compute. reflexivity.
  - reflexivity.
  - reflexivity.
  - reflexivity.
  - exists w'. rewrite Hex, Hreq. split; [|reflexivity].
    f_equal. apply Hok. reflexivity.
Defined.

Lemma omap_raises {A B} (f : A → outcome B) (l : list A) (x : A) (e0 : exn) :
  x ∈ l → f x = Raises e0 → ∃ e, omap f l = Raises e.
Proof.
  induction l as [|y l IH]; intros Hx Hfx; [by apply elem_of_nil in Hx|].
  simpl. destruct (f y) as [b|e] eqn:Hy; simpl; [|by eauto].
  apply elem_of_cons in Hx as [->|Hx]; [congruence|].
  destruct (IH Hx Hfx) as (e & ->). simpl. eauto.
Qed.

Lemma cut_after_colon n t :
  ∃ a b, PyStr.cut ":" (n +:+ ":" +:+ t) = Some (a, b).
Proof.
  induction n as [|c n (a & b & IH)]; simpl; [by eauto|].
  destruct (Ascii.eqb c ":"); [by eauto|]. rewrite IH. simpl. eauto.
Qed.

Lemma to_otlp_raises self dps dp e0 :
  dp ∈ dps →
  py_int (MetricDataPoint.timestamp dp * 1000000000)%float = Raises e0 →
  ∃ e, _to_otlp self dps = Raises e.
Proof.
  intros Hdp Hts. destruct (group_filed dps) as (ks & Hg & Hnd & Hks).
  assert (Hk : group_key dp ∈ ks) by (apply Hks; eauto).
  destruct (omap_raises otlp_data_point
              (filter (λ d, group_key d = group_key dp) dps) dp e0)
    as (e1 & He1); [by apply list_elem_of_filter| |].
  { unfold otlp_data_point. by rewrite Hts. }
  destruct (omap_raises metric_of_group (filed dps <$> ks)
              (filed dps (group_key dp)) e1) as (e & He).
  - by apply list_elem_of_fmap_2.
  - unfold metric_of_group, filed, PyStr.split1.
    destruct (cut_after_colon (MetricDataPoint.name dp)
                (MetricDataPoint.metric_type dp)) as (a & b & Hcut).
    unfold group_key at 1. rewrite Hcut. by rewrite He1.
  - exists e. unfold _to_otlp. by rewrite Hg, He.
Qed.

(** X6: A point whose timestamp [int] rejects (NaN, an infinity) makes the
    encoding of the whole list raise.  A flush of a buffer that holds such a
    point therefore drops every pending point: it returns normally with the
    buffer empty, one line printed and no request sent. *)
Theorem bad_timestamp_drops_the_batch
    (self : MetricsBuffer.t) (dp : MetricDataPoint.t) (e0 : exn) (w : World) :
  dp ∈ MetricsBuffer.data self →
  py_int (MetricDataPoint.timestamp dp * 1000000000)%float = Raises e0 →
  ∃ e w',
    _to_otlp (MetricsBuffer.exporter self) (MetricsBuffer.data self) = Raises e
    ∧ MetricsBuffer._flush self w = (Returns (MetricsBuffer.set_data [] self), w')
    ∧ requests w' = requests w
    ∧ stdout w' = stdout w ++ ["Failed to export metrics: " +:+ exn_str e]
    ∧ export_calls w' = export_calls w ++ [MetricsBuffer.data self].
Proof.
  intros Hdp Hts.
  destruct (to_otlp_raises (MetricsBuffer.exporter self)
              (MetricsBuffer.data self) dp e0 Hdp Hts) as (e & He).
  exists e. unfold MetricsBuffer._flush.
  destruct (MetricsBuffer.data self) as [|p batch] eqn:Hd;
    [by apply elem_of_nil in Hdp|].
  unfold bind, try_except, export, enter_export, lift, print, ret. simpl.
  unfold bind. simpl. rewrite He. simpl.
  eexists. split_and!; reflexivity.
Qed.

Definition nan_point : MetricDataPoint.t :=
  MetricDataPoint.mk "latency" [] 1 nan "histogram".

Lemma bad_timestamp_drops_the_batch_witness :
  ∃ e w',
    MetricsBuffer._flush
      (MetricsBuffer.set_data [sample_point 1; nan_point; sample_point 2]
         (MetricsBuffer.__init__ "http://localhost:8081/v1/metrics" "key" "svc"))
      quiet_world
    = (Returns (MetricsBuffer.__init__ "http://localhost:8081/v1/metrics" "key" "svc"),
       w')
    ∧ requests w' = []
    ∧ stdout w' = ["Failed to export metrics: " +:+ exn_str e].
Proof.
  destruct (bad_timestamp_drops_the_batch
              (MetricsBuffer.set_data [sample_point 1; nan_point; sample_point 2]
                 (MetricsBuffer.__init__ "http://localhost:8081/v1/metrics" "key" "svc"))
              nan_point
              (ValueError "cannot convert float NaN to integer") quiet_world)
    as (e & w' & _ & Hf & Hr & Hs & _).
  - simpl. right. left.
  - vm_compute. reflexivity.
  - exists e, w'. split; [exact Hf|]. split; [exact Hr | exact Hs].
Defined.

End exporter_more.

Section exporter_partition.
Import MetricsExporter.

(** The entries a metric carries, under [sum] or under [gauge]. *)
Definition points_of (m : Otlp.Metric) : list Otlp.NumberDataPoint :=
  match Otlp.aggregation m with
  | Otlp.Sum dataPoints _ _ | Otlp.Gauge dataPoints => dataPoints
  end.

Lemma concat_filter_cons {A K} `{EqDecision K} (f : A → K) (d : A)
    (dps : list A) (ks : list K) :
  NoDup ks →
  concat ((λ k, filter (λ x, f x = k) (d :: dps)) <$> ks)
  ≡ₚ (if decide (f d ∈ ks) then [d] else [])
     ++ concat ((λ k, filter (λ x, f x = k) dps) <$> ks).
Proof.
  induction 1 as [|k ks Hk Hnd IH]; [done|]. cbn [fmap list_fmap concat].
  rewrite IH. destruct (decide (f d = k)) as [<-|Hne].
  - rewrite filter_cons_True by done.
    rewrite (decide_True (P := f d ∈ f d :: ks)) by left.
    rewrite (decide_False (P := f d ∈ ks)) by done. done.
  - rewrite filter_cons_False by done.
    destruct (decide (f d ∈ ks)) as [Hin|Hout].
    + rewrite (decide_True (P := f d ∈ k :: ks)) by (by right).
      simpl. by rewrite Permutation_middle.
    + rewrite (decide_False (P := f d ∈ k :: ks)); [done|].
      by intros [?|?]%elem_of_cons.
Qed.

(** The groups of a list under a key, over keys that cover the list, hold
    each element of the list once. *)
Lemma concat_filter_keys {A K} `{EqDecision K} (f : A → K)
    (dps : list A) (ks : list K) :
  NoDup ks → (∀ d, d ∈ dps → f d ∈ ks) →
  concat ((λ k, filter (λ x, f x = k) dps) <$> ks) ≡ₚ dps.
Proof.
  intros Hnd. induction dps as [|d dps IH]; intros Hcover.
  - clear. induction ks as [|k ks IH]; [done|]. simpl. by rewrite IH.
  - rewrite concat_filter_cons by done.
    rewrite decide_True by (apply Hcover; left). simpl.
    rewrite IH; [done|]. intros x Hx. apply Hcover. by right.
Qed.

Lemma omap_all_return {A B} (f : A → outcome B) (g : A → B) (l : list A) :
  (∀ x, x ∈ l → f x = Returns (g x)) → omap f l = Returns (g <$> l).
Proof.
  induction l as [|x l IH]; intros Hl; simpl; [done|].
  rewrite Hl by left. simpl. rewrite IH; [done|].
  intros y Hy. apply Hl. by right.
Qed.

(** The entry [_to_otlp] gives a point, when [int] accepts its timestamp. *)
Definition entry_of (dp : MetricDataPoint.t) : Otlp.NumberDataPoint :=
  match otlp_data_point dp with
  | Returns p => p
  | Raises _ => Otlp.mkNumberDataPoint [] EmptyString 0
  end.

Lemma otlp_data_point_entry_of dp :
  (∃ ns, py_int (MetricDataPoint.timestamp dp * 1000000000)%float = Returns ns) →
  otlp_data_point dp = Returns (entry_of dp) ∧ point_encoded dp (entry_of dp).
Proof.
  intros Hns. destruct (otlp_data_point_encoded dp Hns) as (p & Hp & Henc).
  unfold entry_of. by rewrite Hp.
Qed.

(** X7: Whatever the names of the points, colons included, [_to_otlp] neither
    loses nor duplicates a point: when [int] accepts every timestamp it
    returns a payload whose metric entries hold, all together, exactly one
    entry per point of the input. *)
Theorem to_otlp_keeps_every_point
    (self : MetricsExporter.t) (dps : list MetricDataPoint.t) :
  (∀ dp, dp ∈ dps →
     ∃ ns, py_int (MetricDataPoint.timestamp dp * 1000000000)%float = Returns ns) →
  ∃ (metrics : list Otlp.Metric) (entries : list Otlp.NumberDataPoint),
    _to_otlp self dps = Returns (payload_of self metrics)
    ∧ Forall2 point_encoded dps entries
    ∧ concat (points_of <$> metrics) ≡ₚ entries.
Proof.
  intros Hts. destruct (group_filed dps) as (ks & Hg & Hnd & Hks).
  destruct (omap_Forall2 metric_of_group
              (λ entry m, points_of m = entry_of <$> entry.2)
              (filed dps <$> ks)) as (ms & Hms & Hall).
  { intros x (k & -> & Hk)%list_elem_of_fmap.
    apply Hks in Hk as (d & Hd & <-).
    unfold metric_of_group, filed, PyStr.split1.
    destruct (cut_after_colon (MetricDataPoint.name d)
                (MetricDataPoint.metric_type d)) as (a & b & Hcut).
    unfold group_key at 1. rewrite Hcut.
    rewrite (omap_all_return otlp_data_point entry_of).
    2:{ intros x [_ Hx]%list_elem_of_filter.
        by apply otlp_data_point_entry_of, Hts. }
    simpl. destruct (decide (b = "counter")); eexists; by split. }
  exists ms, (entry_of <$> dps). split_and!.
  - unfold _to_otlp. by rewrite Hg, Hms.
  - apply Forall2_fmap_r, Forall_Forall2_diag, Forall_forall.
    intros d Hd. by apply otlp_data_point_entry_of, Hts.
  - assert (Hpts : points_of <$> ms
                   = (λ k, entry_of <$> filter (λ d, group_key d = k) dps) <$> ks).
    { clear -Hall. revert ms Hall.
      induction ks as [|k ks IH]; intros ms Hall; inversion Hall; subst; [done|].
      simpl in *. f_equal; [done|]. by apply IH. }
    rewrite Hpts.
    trans (entry_of <$> concat ((λ k, filter (λ d, group_key d = k) dps) <$> ks)).
    + clear. induction ks as [|k ks IH]; [done|].
      simpl. by rewrite fmap_app, IH.
    + apply fmap_Permutation, concat_filter_keys; [done|].
      intros d Hd. apply Hks. eauto.
Qed.

End exporter_partition.

Lemma to_otlp_keeps_every_point_witness :
  ∃ (metrics : list Otlp.Metric) (entries : list Otlp.NumberDataPoint),
    MetricsExporter._to_otlp sample_exporter
      [MetricDataPoint.mk "http:requests" [] 1 1700000000 "counter";
       sample_point 2]
    = Returns (payload_of sample_exporter metrics)
    ∧ Forall2 point_encoded
        [MetricDataPoint.mk "http:requests" [] 1 1700000000 "counter";
         sample_point 2] entries
    ∧ concat (points_of <$> metrics) ≡ₚ entries.
Proof.
  apply (to_otlp_keeps_every_point sample_exporter
           [MetricDataPoint.mk "http:requests" [] 1 1700000000 "counter";
            sample_point 2]).
  intros dp Hdp. apply elem_of_cons in Hdp as [->|Hdp].
  - eexists. vm_compute. reflexivity.
  - apply list_elem_of_singleton in Hdp as ->. eexists. vm_compute. reflexivity.
Defined.

(** ** The instrument key: when it separates identities *)

Section key_injective.
Import MetricsRegistry.

(** [c] does not occur in [s]. *)
Definition free (c : ascii) (s : string) : Prop := PyStr.cut c s = None.

Lemma cut_free (c : ascii) (a b : string) :
  free c a → PyStr.cut c (a +:+ String c b) = Some (a, b).
Proof.
  unfold free. induction a as [|x a IH]; simpl.
  - by rewrite Ascii.eqb_refl.
  - destruct (Ascii.eqb x c); [done|].
    destruct (PyStr.cut c a) as [[]|] eqn:Hc; [done|].
    intros _. by rewrite IH.
Qed.

Lemma free_app (c : ascii) (a b : string) :
  free c a → free c b → free c (a +:+ b).
Proof.
  unfold free. induction a as [|x a IH]; simpl; [done|].
  destruct (Ascii.eqb x c); [done|].
  destruct (PyStr.cut c a) as [[]|] eqn:Hc; [done|].
  intros _ Hb. by rewrite IH.
Qed.

Lemma append_char_inj (a b : string) (c : ascii) :
  a +:+ String c EmptyString = b +:+ String c EmptyString → a = b.
Proof.
  revert b. induction a as [|x a IH]; intros [|y b]; simpl; try done.
  - intros [= _ Hb]. by destruct b.
  - intros [= _ Ha]. by destruct a.
  - intros [= -> Hab]. f_equal. by apply IH.
Qed.

Lemma join_cons (sep x y : string) (l : list string) :
  PyStr.join sep (x :: y :: l) = x +:+ sep +:+ PyStr.join sep (y :: l).
Proof. done. Qed.

Lemma cut_join_cons (x y : string) (l : list string) :
  free "," x →
  PyStr.cut "," (PyStr.join "," (x :: y :: l))
  = Some (x, PyStr.join "," (y :: l)).
Proof. intros Hx. rewrite join_cons. by apply (cut_free "," x). Qed.

Lemma cut_join_single (x : string) :
  free "," x → PyStr.cut "," (PyStr.join "," [x]) = None.
Proof. done. Qed.

(** Parts that hold no comma are recovered from their joining. *)
Lemma join_inj (l1 : list string) : ∀ l2,
  l1 ≠ [] → l2 ≠ [] → Forall (free ",") l1 → Forall (free ",") l2 →
  PyStr.join "," l1 = PyStr.join "," l2 → l1 = l2.
Proof.
  induction l1 as [|x l1 IH]; intros [|y l2] Hn1 Hn2 Hf1 Hf2; try done.
  apply Forall_cons in Hf1 as [Hx Hf1]. apply Forall_cons in Hf2 as [Hy Hf2].
  intros Heq. pose proof (f_equal (PyStr.cut ",") Heq) as Hcut.
  destruct l1 as [|x' l1], l2 as [|y' l2].
  - simpl in Heq. by subst.
  - rewrite cut_join_single, cut_join_cons in Hcut by done. done.
  - rewrite cut_join_single, cut_join_cons in Hcut by done. done.
  - rewrite !cut_join_cons in Hcut by done.
    injection Hcut as -> Hrest. f_equal. by apply IH.
Qed.

End key_injective.

Section key_separates.
Import MetricsRegistry.

(** A tag whose key holds neither [=] nor a comma and whose value holds no
    comma. *)
Definition plain_tag (kv : string * string) : Prop :=
  free "=" kv.1 ∧ free "," kv.1 ∧ free "," kv.2.

Definition unrender (s : string) : string * string :=
  match PyStr.cut "=" s with
  | Some kv => kv
  | None => (s, EmptyString)
  end.

Lemma unrender_render kv : plain_tag kv → unrender (render_pair kv) = kv.
Proof.
  intros (Heq & _). destruct kv as [k v]. unfold unrender, render_pair.
  cbn [fst snd] in *. change ("=" +:+ v) with (String "=" v).
  by rewrite (cut_free "=" k v).
Qed.

Lemma render_pair_free kv : plain_tag kv → free "," (render_pair kv).
Proof.
  intros (_ & Hk & Hv). unfold render_pair.
  apply free_app; [done|]. by apply (free_app "," "=").
Qed.

Lemma unrender_fmap (tags : Tags) :
  Forall plain_tag tags → unrender <$> (render_pair <$> tags) = tags.
Proof.
  induction 1 as [|kv tags Hkv Htags IH]; [done|].
  cbn [fmap list_fmap]. rewrite unrender_render by done. f_equal. exact IH.
Qed.

Lemma sorted_rendered_free (tags : Tags) :
  Forall plain_tag tags → Forall (free ",") (PyStr.sorted (render_pair <$> tags)).
Proof.
  intros Htags. rewrite sorted_Permutation. apply Forall_fmap.
  eapply Forall_impl; [exact Htags|]. intros kv. apply render_pair_free.
Qed.

Lemma sorted_nonempty (l : list string) : l ≠ [] → PyStr.sorted l ≠ [].
Proof.
  intros Hl Hs. apply Hl. apply Permutation_nil_r.
  rewrite <- Hs. by rewrite sorted_Permutation.
Qed.

(** X10: Names that hold no opening brace and tags that are plain are recovered
    from the key: two instruments then share a key only if they have the
    same name and the same tag pairs. *)
Theorem metric_key_separates_plain_identities
    (name1 name2 : string) (T1 T2 : Tags) :
  free "{" name1 → free "{" name2 →
  Forall plain_tag T1 → Forall plain_tag T2 →
  _metric_key name1 T1 = _metric_key name2 T2 →
  name1 = name2 ∧ T1 ≡ₚ T2.
Proof.
  intros Hn1 Hn2 HT1 HT2. unfold _metric_key.
  destruct T1 as [|p1 T1], T2 as [|p2 T2].
  - by intros ->.
  - intros Heq.
    assert (Hc : PyStr.cut "{" name1
              = Some (name2, PyStr.join "," (PyStr.sorted (render_pair <$> p2 :: T2))
                             +:+ "}")).
    { rewrite Heq. exact (cut_free "{" name2 _ Hn2). }
    unfold free in Hn1. congruence.
  - intros Heq.
    assert (Hc : PyStr.cut "{" name2
              = Some (name1, PyStr.join "," (PyStr.sorted (render_pair <$> p1 :: T1))
                             +:+ "}")).
    { rewrite <- Heq. exact (cut_free "{" name1 _ Hn1). }
    unfold free in Hn2. congruence.
  - intros Heq.
    assert (Hc : Some (name1, PyStr.join "," (PyStr.sorted (render_pair <$> p1 :: T1))
                              +:+ "}")
              = Some (name2, PyStr.join "," (PyStr.sorted (render_pair <$> p2 :: T2))
                             +:+ "}")).
    { rewrite <- (cut_free "{" name1 _ Hn1), <- (cut_free "{" name2 _ Hn2).
      exact (f_equal (PyStr.cut "{") Heq). }
    injection Hc as <- Hjoin. split; [done|].
    apply append_char_inj in Hjoin.
    apply join_inj in Hjoin;
      [|by apply sorted_nonempty|by apply sorted_nonempty
       |by apply (sorted_rendered_free (p1 :: T1))
       |by apply (sorted_rendered_free (p2 :: T2))].
    rewrite <- (unrender_fmap (p1 :: T1)), <- (unrender_fmap (p2 :: T2)) by done.
    apply fmap_Permutation.
    assert (Hs : PyStr.sorted (render_pair <$> p1 :: T1)
                 = PyStr.sorted (render_pair <$> p2 :: T2)) by exact Hjoin.
    trans (PyStr.sorted (render_pair <$> p1 :: T1));
      [symmetry; apply sorted_Permutation|].
    rewrite Hs. apply sorted_Permutation.
Qed.

Lemma metric_key_separates_plain_identities_witness :
  "cpu" = "cpu"
  ∧ [("host", "a"); ("region", "eu")] ≡ₚ [("region", "eu"); ("host", "a")].
Proof.
  apply (metric_key_separates_plain_identities "cpu" "cpu"
           [("host", "a"); ("region", "eu")] [("region", "eu"); ("host", "a")]).
  - reflexivity.
  - reflexivity.
  - repeat constructor.
  - repeat constructor.
  - vm_compute. reflexivity.
Defined.

(** X11: Otherwise the key does not tell the name from the tags: the key of a
    tagged instrument, asked for as a name without tags, is the same key.
    The registry then returns the tagged counter, whose points carry the
    name and the tags of the first call. *)
Theorem key_used_as_name_aliases_tagged_counter
    (r : t) (name : string) (kv : string * string) (tags : Tags)
    (between : list call) :
  _metric_key (_metric_key name (kv :: tags)) [] = _metric_key name (kv :: tags)
  ∧ let first := counter r name (Some (kv :: tags)) in
    let r2 := perform_all first.2 between in
    counter r2 (_metric_key name (kv :: tags)) None = (first.1, r2).
Proof.
  split; [done|]. cbv zeta. apply counter_hit. simpl.
  eapply lookup_weaken; [apply (counter_bound r name (Some (kv :: tags)))|].
  apply perform_all_extends.
Qed.

End key_separates.

(** ** The registry: what its dictionaries refer to *)

Section registry_invariant.
Import MetricsRegistry.

(** Every reference held by a dictionary points, in the heap, to an
    instrument of the kind of that dictionary whose name and tags make up
    the key it is filed under. *)
Definition sound (r : t) : Prop :=
  (∀ key c, counters r !! key = Some c →
     ∃ o, heap r !! c = Some (ACounter o)
          ∧ _metric_key (CounterImpl.name o) (CounterImpl.tags o) = key)
  ∧ (∀ key g, gauges r !! key = Some g →
       ∃ o, heap r !! g = Some (AGauge o)
            ∧ _metric_key (GaugeImpl.name o) (GaugeImpl.tags o) = key)
  ∧ (∀ key h, histograms r !! key = Some h →
       ∃ o, heap r !! h = Some (AHistogram o)
            ∧ _metric_key (HistogramImpl.name o) (HistogramImpl.tags o) = key).

Lemma sound_init endpoint api_key service_name :
  sound (__init__ endpoint api_key service_name).
Proof. unfold sound, __init__; simpl. split_and!; intros ??; by rewrite lookup_empty. Qed.

Ltac solve_old_entry H :=
  destruct H as (o & Ho & Hkey); exists o; split; [|done];
  by apply lookup_app_l_Some.

Lemma sound_counter r name tags : sound r → sound (counter r name tags).2.
Proof.
  intros (Hc & Hg & Hh). unfold counter.
  destruct (counters r !! _) eqn:Hl; simpl; [by split_and!|].
  split_and!; simpl.
  - intros key c. rewrite lookup_insert. case_decide as Hk.
    + intros [= <-]. eexists. split; [apply list_lookup_middle; done|].
      by subst key.
    + intros Hold. specialize (Hc _ _ Hold). solve_old_entry Hc.
  - intros key g Hold. specialize (Hg _ _ Hold). solve_old_entry Hg.
  - intros key h Hold. specialize (Hh _ _ Hold). solve_old_entry Hh.
Qed.

Lemma sound_gauge r name tags : sound r → sound (gauge r name tags).2.
Proof.
  intros (Hc & Hg & Hh). unfold gauge.
  destruct (gauges r !! _) eqn:Hl; simpl; [by split_and!|].
  split_and!; simpl.
  - intros key c Hold. specialize (Hc _ _ Hold). solve_old_entry Hc.
  - intros key g. rewrite lookup_insert. case_decide as Hk.
    + intros [= <-]. eexists. split; [apply list_lookup_middle; done|].
      by subst key.
    + intros Hold. specialize (Hg _ _ Hold). solve_old_entry Hg.
  - intros key h Hold. specialize (Hh _ _ Hold). solve_old_entry Hh.
Qed.

Lemma sound_histogram r name tags : sound r → sound (histogram r name tags).2.
Proof.
  intros (Hc & Hg & Hh). unfold histogram.
  destruct (histograms r !! _) eqn:Hl; simpl; [by split_and!|].
  split_and!; simpl.
  - intros key c Hold. specialize (Hc _ _ Hold). solve_old_entry Hc.
  - intros key g Hold. specialize (Hg _ _ Hold). solve_old_entry Hg.
  - intros key h. rewrite lookup_insert. case_decide as Hk.
    + intros [= <-]. eexists. split; [apply list_lookup_middle; done|].
      by subst key.
    + intros Hold. specialize (Hh _ _ Hold). solve_old_entry Hh.
Qed.

Lemma sound_perform_all cs : ∀ r, sound r → sound (perform_all r cs).
Proof.
  induction cs as [|c cs IH]; intros r Hr; [done|]. simpl. apply IH.
  destruct c; [by apply sound_counter|by apply sound_gauge
              |by apply sound_histogram].
Qed.

End registry_invariant.

Section registry_same_instance.
Import MetricsRegistry.

(** Objects are never removed from the heap nor replaced in it. *)
Lemma counter_heap r name tags : heap r `prefix_of` heap (counter r name tags).2.
Proof.
  unfold counter. destruct (counters r !! _); simpl; [done|].
  by apply prefix_app_r.
Qed.

Lemma gauge_heap r name tags : heap r `prefix_of` heap (gauge r name tags).2.
Proof.
  unfold gauge. destruct (gauges r !! _); simpl; [done|].
  by apply prefix_app_r.
Qed.

Lemma histogram_heap r name tags :
  heap r `prefix_of` heap (histogram r name tags).2.
Proof.
  unfold histogram. destruct (histograms r !! _); simpl; [done|].
  by apply prefix_app_r.
Qed.

Lemma perform_all_heap cs : ∀ r, heap r `prefix_of` heap (perform_all r cs).
Proof.
  induction cs as [|c cs IH]; intros r; simpl; [done|].
  etrans; [|apply IH].
  destruct c; [apply counter_heap|apply gauge_heap|apply histogram_heap].
Qed.

(** A call under a key that is not bound yet constructs the instrument with
    the name and the tags given and returns the reference to it. *)
Lemma counter_fresh r name tags :
  counters r !! _metric_key name (default [] tags) = None →
  heap (counter r name tags).2 !! (counter r name tags).1
  = Some (ACounter (CounterImpl.mk name (default [] tags))).
Proof. unfold counter. intros ->. simpl. by apply list_lookup_middle. Qed.

Lemma gauge_fresh r name tags :
  gauges r !! _metric_key name (default [] tags) = None →
  heap (gauge r name tags).2 !! (gauge r name tags).1
  = Some (AGauge (GaugeImpl.__init__ name (default [] tags))).
Proof. unfold gauge. intros ->. simpl. by apply list_lookup_middle. Qed.

Lemma histogram_fresh r name tags :
  histograms r !! _metric_key name (default [] tags) = None →
  heap (histogram r name tags).2 !! (histogram r name tags).1
  = Some (AHistogram (HistogramImpl.mk name (default [] tags))).
Proof. unfold histogram. intros ->. simpl. by apply list_lookup_middle. Qed.

(** C8: in a registry built from [__init__] by any calls, and for each of
    the three kinds: the first call returns a reference to an instrument of
    that kind in the heap, whose name and tags make up the key asked for
    (the instrument constructed with the name and tags given, when the key
    was not bound); a second call with the same name and a tag mapping
    holding the same pairs in any order, made after any calls in between,
    returns that very reference and leaves the registry as it found it, the
    reference still denoting the same object; the first call adds at most
    one entry to the dictionary of its kind and at most one object. *)
Theorem C8_get_or_create_same_instance
    (endpoint api_key service_name : string) (cs : list call)
    (name : string) (T1 T2 : Tags) (between : list call) :
  T1 ≡ₚ T2 →
  let r := perform_all (__init__ endpoint api_key service_name) cs in
  (let first := counter r name (Some T1) in
   let r2 := perform_all first.2 between in
   counter r2 name (Some T2) = (first.1, r2)
   ∧ (∃ o, heap first.2 !! first.1 = Some (ACounter o)
           ∧ heap r2 !! first.1 = Some (ACounter o)
           ∧ _metric_key (CounterImpl.name o) (CounterImpl.tags o)
             = _metric_key name T1)
   ∧ (counters r !! _metric_key name T1 = None →
      heap first.2 !! first.1 = Some (ACounter (CounterImpl.mk name T1)))
   ∧ (size (counters first.2) ≤ S (size (counters r)))%nat
   ∧ (length (heap first.2) ≤ S (length (heap r)))%nat)
  ∧ (let first := gauge r name (Some T1) in
     let r2 := perform_all first.2 between in
     gauge r2 name (Some T2) = (first.1, r2)
     ∧ (∃ o, heap first.2 !! first.1 = Some (AGauge o)
             ∧ heap r2 !! first.1 = Some (AGauge o)
             ∧ _metric_key (GaugeImpl.name o) (GaugeImpl.tags o)
               = _metric_key name T1)
     ∧ (gauges r !! _metric_key name T1 = None →
        heap first.2 !! first.1 = Some (AGauge (GaugeImpl.__init__ name T1)))
     ∧ (size (gauges first.2) ≤ S (size (gauges r)))%nat
     ∧ (length (heap first.2) ≤ S (length (heap r)))%nat)
  ∧ (let first := histogram r name (Some T1) in
     let r2 := perform_all first.2 between in
     histogram r2 name (Some T2) = (first.1, r2)
     ∧ (∃ o, heap first.2 !! first.1 = Some (AHistogram o)
             ∧ heap r2 !! first.1 = Some (AHistogram o)
             ∧ _metric_key (HistogramImpl.name o) (HistogramImpl.tags o)
               = _metric_key name T1)
     ∧ (histograms r !! _metric_key name T1 = None →
        heap first.2 !! first.1 = Some (AHistogram (HistogramImpl.mk name T1)))
     ∧ (size (histograms first.2) ≤ S (size (histograms r)))%nat
     ∧ (length (heap first.2) ≤ S (length (heap r)))%nat).
Proof.
  intros Hp r.
  assert (Hr : sound r) by apply sound_perform_all, sound_init.
  cbv zeta. split; [|split]; (split; [|split; [|split; [|]]]).
  - apply counter_hit. simpl. rewrite <- (metric_key_Permutation name T1 T2 Hp).
    eapply lookup_weaken; [apply (counter_bound r name (Some T1))|].
    apply perform_all_extends.
  - destruct (sound_counter r name (Some T1) Hr) as (Hc & _ & _).
    destruct (Hc _ _ (counter_bound r name (Some T1))) as (o & Ho & Hk).
    exists o. split; [done|]. split; [|done].
    eapply prefix_lookup_Some; [exact Ho|apply perform_all_heap].
  - apply (counter_fresh r name (Some T1)).
  - apply counter_size.
  - apply gauge_hit. simpl. rewrite <- (metric_key_Permutation name T1 T2 Hp).
    eapply lookup_weaken; [apply (gauge_bound r name (Some T1))|].
    apply perform_all_extends.
  - destruct (sound_gauge r name (Some T1) Hr) as (_ & Hg & _).
    destruct (Hg _ _ (gauge_bound r name (Some T1))) as (o & Ho & Hk).
    exists o. split; [done|]. split; [|done].
    eapply prefix_lookup_Some; [exact Ho|apply perform_all_heap].
  - apply (gauge_fresh r name (Some T1)).
  - apply gauge_size.
  - apply histogram_hit. simpl. rewrite <- (metric_key_Permutation name T1 T2 Hp).
    eapply lookup_weaken; [apply (histogram_bound r name (Some T1))|].
    apply perform_all_extends.
  - destruct (sound_histogram r name (Some T1) Hr) as (_ & _ & Hh).
    destruct (Hh _ _ (histogram_bound r name (Some T1))) as (o & Ho & Hk).
    exists o. split; [done|]. split; [|done].
    eapply prefix_lookup_Some; [exact Ho|apply perform_all_heap].
  - apply (histogram_fresh r name (Some T1)).
  - apply histogram_size.
Qed.

Lemma C8_get_or_create_same_instance_witness :
  let r := perform_all (__init__ "http://localhost:8081/v1/metrics" "key" "svc")
             [CallGauge "cpu" None] in
  let T1 := [("region", "eu"); ("host", "a")] in
  let T2 := [("host", "a"); ("region", "eu")] in
  let first := counter r "cpu" (Some T1) in
  let r2 := perform_all first.2 [CallGauge "cpu" (Some T1); CallCounter "mem" None] in
  counter r2 "cpu" (Some T2) = (first.1, r2)
  ∧ heap r2 !! first.1 = Some (ACounter (CounterImpl.mk "cpu" T1)).
Proof.
  assert (Hp : [("region", "eu"); ("host", "a")]
               ≡ₚ [("host", "a"); ("region", "eu")]) by apply Permutation_swap.
  destruct (C8_get_or_create_same_instance
              "http://localhost:8081/v1/metrics" "key" "svc"
              [CallGauge "cpu" None] "cpu" _ _
              [CallGauge "cpu" (Some [("region", "eu"); ("host", "a")]);
               CallCounter "mem" None] Hp)
    as ((Hsame & (o & Ho1 & Ho2 & _) & Hfresh & _) & _).
  split; [exact Hsame|].
  etrans; [exact Ho2|]. etrans; [symmetry; exact Ho1|].
  apply Hfresh. reflexivity.
Defined.

End registry_same_instance.

Section registry_more.
Import MetricsRegistry.

(** X12: In a registry built from [__init__] by any calls, the reference a call
    returns points to an instrument of the kind asked for, whose name and
    tags make up the key asked for. *)
Theorem registry_returns_instruments_of_the_key
    (endpoint api_key service_name : string) (cs : list call)
    (name : string) (tags : option Tags) :
  let r := perform_all (__init__ endpoint api_key service_name) cs in
  let key := _metric_key name (default [] tags) in
  (∃ o, heap (counter r name tags).2 !! (counter r name tags).1
          = Some (ACounter o)
        ∧ _metric_key (CounterImpl.name o) (CounterImpl.tags o) = key)
  ∧ (∃ o, heap (gauge r name tags).2 !! (gauge r name tags).1
            = Some (AGauge o)
          ∧ _metric_key (GaugeImpl.name o) (GaugeImpl.tags o) = key)
  ∧ (∃ o, heap (histogram r name tags).2 !! (histogram r name tags).1
            = Some (AHistogram o)
          ∧ _metric_key (HistogramImpl.name o) (HistogramImpl.tags o) = key).
Proof.
  intros r key.
  assert (Hr : sound r) by apply sound_perform_all, sound_init.
  split_and!.
  - destruct (sound_counter r name tags Hr) as (Hc & _ & _).
    apply Hc, counter_bound.
  - destruct (sound_gauge r name tags Hr) as (_ & Hg & _).
    apply Hg, gauge_bound.
  - destruct (sound_histogram r name tags Hr) as (_ & _ & Hh).
    apply Hh, histogram_bound.
Qed.

(** X13: Instruments asked for under different keys are different objects. *)
Theorem registry_separates_keys
    (endpoint api_key service_name : string) (cs : list call)
    (name1 name2 : string) (tags1 tags2 : option Tags) :
  _metric_key name1 (default [] tags1) ≠ _metric_key name2 (default [] tags2) →
  let r := perform_all (__init__ endpoint api_key service_name) cs in
  (counter r name1 tags1).1 ≠ (counter (counter r name1 tags1).2 name2 tags2).1
  ∧ (gauge r name1 tags1).1 ≠ (gauge (gauge r name1 tags1).2 name2 tags2).1
  ∧ (histogram r name1 tags1).1
    ≠ (histogram (histogram r name1 tags1).2 name2 tags2).1.
Proof.
  intros Hkeys r.
  assert (Hr : sound r) by apply sound_perform_all, sound_init.
  split_and!; intros Href.
  - pose proof (sound_counter _ name2 tags2 (sound_counter r name1 tags1 Hr))
      as (Hc & _ & _).
    destruct (Hc _ _ (counter_bound _ name2 tags2)) as (o2 & Ho2 & Hk2).
    destruct (Hc (_metric_key name1 (default [] tags1)) (counter r name1 tags1).1)
      as (o1 & Ho1 & Hk1).
    { eapply lookup_weaken; [apply counter_bound|]. apply counter_extends. }
    rewrite Href in Ho1. congruence.
  - pose proof (sound_gauge _ name2 tags2 (sound_gauge r name1 tags1 Hr))
      as (_ & Hg & _).
    destruct (Hg _ _ (gauge_bound _ name2 tags2)) as (o2 & Ho2 & Hk2).
    destruct (Hg (_metric_key name1 (default [] tags1)) (gauge r name1 tags1).1)
      as (o1 & Ho1 & Hk1).
    { eapply lookup_weaken; [apply gauge_bound|]. apply gauge_extends. }
    rewrite Href in Ho1. congruence.
  - pose proof (sound_histogram _ name2 tags2 (sound_histogram r name1 tags1 Hr))
      as (_ & _ & Hh).
    destruct (Hh _ _ (histogram_bound _ name2 tags2)) as (o2 & Ho2 & Hk2).
    destruct (Hh (_metric_key name1 (default [] tags1)) (histogram r name1 tags1).1)
      as (o1 & Ho1 & Hk1).
    { eapply lookup_weaken; [apply histogram_bound|]. apply histogram_extends. }
    rewrite Href in Ho1. congruence.
Qed.

Lemma registry_separates_keys_witness :
  let r := __init__ "http://localhost:8081/v1/metrics" "key" "svc" in
  (counter r "cpu" None).1
  ≠ (counter (counter r "cpu" None).2 "cpu" (Some [("host", "a")])).1.
Proof.
  apply (registry_separates_keys "http://localhost:8081/v1/metrics" "key" "svc"
           [] "cpu" "cpu" None (Some [("host", "a")])).
  vm_compute. discriminate.
Defined.

(** X14: The three kinds are separate name spaces: a counter, a gauge and a
    histogram are three objects even when asked for under one key. *)
Theorem registry_kinds_are_separate
    (endpoint api_key service_name : string) (cs : list call)
    (name1 name2 name3 : string) (tags1 tags2 tags3 : option Tags) :
  let r := perform_all (__init__ endpoint api_key service_name) cs in
  let c := counter r name1 tags1 in
  let g := gauge c.2 name2 tags2 in
  let h := histogram g.2 name3 tags3 in
  c.1 ≠ g.1 ∧ c.1 ≠ h.1 ∧ g.1 ≠ h.1.
Proof.
  intros r c g h.
  assert (Hh : sound h.2).
  { apply sound_histogram, sound_gauge, sound_counter, sound_perform_all,
      sound_init. }
  destruct Hh as (Hcs & Hgs & Hhs).
  destruct (Hcs (_metric_key name1 (default [] tags1)) c.1) as (oc & Hoc & _).
  { eapply lookup_weaken; [apply counter_bound|].
    eapply extends_trans; [apply gauge_extends|apply histogram_extends]. }
  destruct (Hgs (_metric_key name2 (default [] tags2)) g.1) as (og & Hog & _).
  { eapply lookup_weaken; [apply gauge_bound|]. apply histogram_extends. }
  destruct (Hhs _ _ (histogram_bound g.2 name3 tags3)) as (oh & Hoh & _).
  fold h in Hoh. split_and!; intros Heq; congruence.
Qed.

End registry_more.

(** ** After shutdown, for calls that do not overlap *)

Section shutdown_final.
Import MetricsBuffer.

Lemma step_after_shutdown self o w :
  _shutdown self = true → data self = [] → step self o w = (Returns self, w).
Proof.
  intros Hs Hd. destruct o; simpl.
  - by apply add_after_shutdown.
  - unfold _flush_loop_wakeup. by rewrite Hs.
  - unfold shutdown. rewrite flush_empty by done.
    f_equal. destruct self; simpl in *; by subst.
Qed.

Lemma run_after_shutdown ops self w :
  _shutdown self = true → data self = [] → run self ops w = (Returns self, w).
Proof.
  intros Hs Hd. induction ops as [|o ops IH]; [done|].
  simpl. unfold bind. by rewrite step_after_shutdown.
Qed.

(** When no call overlaps it, [MetricsRegistry.shutdown] returns normally
    and leaves the dictionaries and the instruments as they are; it hands
    the pending points, if any, to [export] in one call; and no later call
    that does not overlap another changes the buffer or the world. *)
Theorem registry_shutdown_is_final (r : MetricsRegistry.t) (w : World) :
  ∃ r' w',
    MetricsRegistry.shutdown r w = (Returns r', w')
    ∧ MetricsRegistry.counters r' = MetricsRegistry.counters r
    ∧ MetricsRegistry.gauges r' = MetricsRegistry.gauges r
    ∧ MetricsRegistry.histograms r' = MetricsRegistry.histograms r
    ∧ MetricsRegistry.heap r' = MetricsRegistry.heap r
    ∧ export_calls w'
      = export_calls w
          ++ match data (MetricsRegistry.buffer r) with [] => [] | d => [d] end
    ∧ (∀ ops w1, run (MetricsRegistry.buffer r') ops w1
                 = (Returns (MetricsRegistry.buffer r'), w1))
    ∧ (∀ w1, MetricsRegistry.shutdown r' w1 = (Returns r', w1)).
Proof.
  unfold MetricsRegistry.shutdown, bind, shutdown.
  destruct (flush_effects (set_shutdown true (MetricsRegistry.buffer r)) w)
    as (w' & bs & Hf & Hbs & Hc & _).
  rewrite Hf. eexists _, w'. split; [reflexivity|]. simpl.
  split_and!; try done.
  - by rewrite Hc, Hbs.
  - intros ops w1. by apply run_after_shutdown.
Qed.

End shutdown_final.

(** ** Instruments: what reaches the buffer *)

(** The world after [n] readings of the clock. *)
Definition after_clock_reads (n : nat) (w : World) : World :=
  mkWorld (collector w) (clock w) (n + clock_reads w) (requests w) (stdout w)
          (export_calls w) (urlparse w) (connection_init w).

Section instruments_after_shutdown.

(** X16: Once the buffer is shut down, a write through any instrument returns
    normally and leaves the buffer, and hence the exporter, untouched: of a
    counter (which reads the clock unless the value is negative), of a
    histogram, and of a gauge, whose accumulator is updated all the same. *)
Theorem writes_after_shutdown_are_dropped
    (c : CounterImpl.t) (g : GaugeImpl.t) (h : HistogramImpl.t)
    (buffer : MetricsBuffer.t) (v : float) (w : World) :
  MetricsBuffer._shutdown buffer = true →
  CounterImpl.add c v buffer w
    = (Returns buffer, if (v <? 0)%float then w else after_clock_read w)
  ∧ HistogramImpl.record h v buffer w = (Returns buffer, after_clock_read w)
  ∧ GaugeImpl.set g v buffer w
    = (Returns (GaugeImpl.mk (GaugeImpl.name g) (GaugeImpl.tags g) v, buffer),
       after_clock_read w)
  ∧ GaugeImpl.inc g buffer w
    = (Returns (GaugeImpl.mk (GaugeImpl.name g) (GaugeImpl.tags g)
                  (GaugeImpl._value g + 1)%float, buffer),
       after_clock_read w)
  ∧ GaugeImpl.dec g buffer w
    = (Returns (GaugeImpl.mk (GaugeImpl.name g) (GaugeImpl.tags g)
                  (GaugeImpl._value g - 1)%float, buffer),
       after_clock_read w).
Proof.
  intros Hs. split_and!.
  - unfold CounterImpl.add. destruct (v <? 0)%float; [done|].
    unfold bind, time_time. simpl. by rewrite add_after_shutdown.
  - unfold HistogramImpl.record, bind, time_time. simpl.
    by rewrite add_after_shutdown.
  - unfold GaugeImpl.set, bind, time_time. simpl.
    by rewrite add_after_shutdown.
  - unfold GaugeImpl.inc, bind, time_time. simpl.
    by rewrite add_after_shutdown.
  - unfold GaugeImpl.dec, bind, time_time. simpl.
    by rewrite add_after_shutdown.
Qed.

Lemma writes_after_shutdown_are_dropped_witness :
  let buffer :=
    MetricsBuffer.set_shutdown true
      (MetricsBuffer.__init__ "http://localhost:8081/v1/metrics" "key" "svc") in
  CounterImpl.add requests_counter 3 buffer quiet_world
    = (Returns buffer, after_clock_read quiet_world)
  ∧ GaugeImpl.inc (GaugeImpl.__init__ "queue.depth" []) buffer quiet_world
    = (Returns (GaugeImpl.mk "queue.depth" [] 1, buffer),
       after_clock_read quiet_world).
Proof.
  destruct (writes_after_shutdown_are_dropped requests_counter
              (GaugeImpl.__init__ "queue.depth" [])
              (HistogramImpl.mk "latency" [])
              (MetricsBuffer.set_shutdown true
                 (MetricsBuffer.__init__ "http://localhost:8081/v1/metrics" "key" "svc"))
              3 quiet_world) as (Hc & _ & _ & Hi & _).
  - reflexivity.
  - split; [exact Hc | exact Hi].
Defined.

End instruments_after_shutdown.

(** Calls on a gauge, and a caller making them one after the other. *)
Inductive gauge_op : Type :=
  | GSet (v : float)
  | GInc
  | GDec.

Definition gauge_step (g : GaugeImpl.t) (o : gauge_op)
    (buffer : MetricsBuffer.t) : M (GaugeImpl.t * MetricsBuffer.t) :=
  match o with
  | GSet v => GaugeImpl.set g v buffer
  | GInc => GaugeImpl.inc g buffer
  | GDec => GaugeImpl.dec g buffer
  end.

Fixpoint gauge_run (g : GaugeImpl.t) (ops : list gauge_op)
    (buffer : MetricsBuffer.t) : M (GaugeImpl.t * MetricsBuffer.t) :=
  match ops with
  | [] => ret (g, buffer)
  | o :: ops' =>
      let! gb := gauge_step g o buffer in gauge_run gb.1 ops' gb.2
  end.

(** The accumulator after a call, and after each call of a list. *)
Definition next_value (v : float) (o : gauge_op) : float :=
  match o with
  | GSet x => x
  | GInc => (v + 1)%float
  | GDec => (v - 1)%float
  end.

Fixpoint values_from (v : float) (ops : list gauge_op) : list float :=
  match ops with
  | [] => []
  | o :: ops' => next_value v o :: values_from (next_value v o) ops'
  end.

Section gauge_runs.

Definition gauge_point (g : GaugeImpl.t) (w : World) (i : nat) (v : float)
  : MetricDataPoint.t :=
  MetricDataPoint.mk (GaugeImpl.name g) (GaugeImpl.tags g) v
    (clock w (i + clock_reads w)) "gauge".

Lemma gauge_step_below g o buffer w :
  MetricsBuffer._shutdown buffer = false →
  (Z.of_nat (length (MetricsBuffer.data buffer)) + 1
   < MetricsBuffer.max_size buffer)%Z →
  gauge_step g o buffer w
  = (Returns (GaugeImpl.mk (GaugeImpl.name g) (GaugeImpl.tags g)
                (next_value (GaugeImpl._value g) o),
              MetricsBuffer.set_data
                (MetricsBuffer.data buffer
                   ++ [gauge_point g w 0 (next_value (GaugeImpl._value g) o)])
                buffer),
     after_clock_reads 1 w).
Proof.
  intros Hs Hroom.
  destruct o; simpl; unfold GaugeImpl.set, GaugeImpl.inc, GaugeImpl.dec,
    bind, time_time; simpl; by rewrite add_below.
Qed.

(** X17: On a live buffer with room, a run of calls on a gauge appends one point
    per call, in order, each carrying the name and the tags of the gauge,
    the type gauge, the reading of the clock at the call and the value of
    the accumulator after the call; the gauge ends with the value of the
    last point (its own, if no call was made). *)
Theorem gauge_run_emits_running_values
    (ops : list gauge_op) (g : GaugeImpl.t) (buffer : MetricsBuffer.t)
    (w : World) :
  MetricsBuffer._shutdown buffer = false →
  (Z.of_nat (length (MetricsBuffer.data buffer) + length ops)
   < MetricsBuffer.max_size buffer)%Z →
  gauge_run g ops buffer w
  = (Returns
       (GaugeImpl.mk (GaugeImpl.name g) (GaugeImpl.tags g)
          (default (GaugeImpl._value g)
                   (last (values_from (GaugeImpl._value g) ops))),
        MetricsBuffer.set_data
          (MetricsBuffer.data buffer
             ++ imap (gauge_point g w) (values_from (GaugeImpl._value g) ops))
          buffer),
     after_clock_reads (length ops) w).
Proof.
  revert g buffer w. induction ops as [|o ops IH]; intros g buffer w Hs Hroom.
  - simpl. unfold ret. rewrite app_nil_r. by destruct g, buffer, w.
  - cbn [gauge_run]. unfold bind.
    rewrite gauge_step_below; [|done|simpl in Hroom; lia].
    cbn [fst snd]. rewrite IH; [|done|].
    2:{ simpl. rewrite length_app. simpl in *. lia. }
    cbn [values_from]. rewrite last_cons. f_equal; [do 2 f_equal|].
    + simpl. destruct (last _); reflexivity.
    + unfold MetricsBuffer.set_data. simpl. f_equal.
      rewrite <- app_assoc. f_equal. simpl. f_equal.
      apply imap_ext. intros i v _. unfold gauge_point. simpl.
      do 2 f_equal. lia.
    + unfold after_clock_reads. simpl. f_equal. lia.
Qed.

Lemma gauge_run_emits_running_values_witness :
  let buffer := MetricsBuffer.__init__ "http://localhost:8081/v1/metrics" "key" "svc" in
  gauge_run (GaugeImpl.__init__ "queue.depth" []) [GInc; GInc; GSet 10; GDec]
            buffer quiet_world
  = (Returns
       (GaugeImpl.mk "queue.depth" [] 9,
        MetricsBuffer.set_data
          ((λ v, MetricDataPoint.mk "queue.depth" [] v 1700000000 "gauge")
             <$> [1; 2; 10; 9]%float)
          buffer),
     after_clock_reads 4 quiet_world).
Proof.
  apply (gauge_run_emits_running_values [GInc; GInc; GSet 10; GDec]
           (GaugeImpl.__init__ "queue.depth" [])
           (MetricsBuffer.__init__ "http://localhost:8081/v1/metrics" "key" "svc")
           quiet_world).
  - reflexivity.
  - simpl. lia.
Defined.

End gauge_runs.

(** A caller adding the values of a list to a counter. *)
Fixpoint counter_add_all (c : CounterImpl.t) (vs : list float)
    (buffer : MetricsBuffer.t) : M MetricsBuffer.t :=
  match vs with
  | [] => ret buffer
  | v :: vs' =>
      let! buffer := CounterImpl.add c v buffer in counter_add_all c vs' buffer
  end.

Section counter_runs.

Definition counter_point_of (c : CounterImpl.t) (p : MetricDataPoint.t) : Prop :=
  MetricDataPoint.name p = CounterImpl.name c
  ∧ MetricDataPoint.tags p = CounterImpl.tags c
  ∧ MetricDataPoint.metric_type p = "counter"
  ∧ (MetricDataPoint.value p <? 0)%float = false.

Lemma counter_add_not_negative c v buffer w :
  (v <? 0)%float = false →
  CounterImpl.add c v buffer w
  = MetricsBuffer.add buffer
      (MetricDataPoint.mk (CounterImpl.name c) (CounterImpl.tags c) v
                          (clock w (clock_reads w)) "counter")
      (after_clock_read w).
Proof. intros Hv. unfold CounterImpl.add. by rewrite Hv. Qed.

(** X18: On a live buffer with room, adding a list of values to a counter leaves
    in the buffer, after what was pending, one point for each value that is
    not below zero, in order, and nothing for the others; no point of a
    counter ever carries a value below zero; nothing is exported. *)
Theorem counter_keeps_the_values_not_below_zero
    (vs : list float) (c : CounterImpl.t) (buffer : MetricsBuffer.t)
    (w : World) :
  MetricsBuffer._shutdown buffer = false →
  (Z.of_nat (length (MetricsBuffer.data buffer) + length vs)
   < MetricsBuffer.max_size buffer)%Z →
  ∃ points w',
    counter_add_all c vs buffer w
    = (Returns (MetricsBuffer.set_data (MetricsBuffer.data buffer ++ points)
                                       buffer), w')
    ∧ MetricDataPoint.value <$> points
      = filter (λ v, (v <? 0)%float = false) vs
    ∧ Forall (counter_point_of c) points
    ∧ export_calls w' = export_calls w
    ∧ requests w' = requests w.
Proof.
  revert buffer w. induction vs as [|v vs IH]; intros buffer w Hs Hroom.
  - exists [], w. simpl. rewrite app_nil_r. split_and!; try done.
    unfold ret. by destruct buffer.
  - cbn [counter_add_all]. unfold bind.
    destruct (v <? 0)%float eqn:Hv.
    + rewrite counter_add_negative by done.
      destruct (IH buffer w) as (ps & w' & Hrun & Hvals & Hall & Hc & Hr);
        [done|simpl in Hroom; lia|].
      exists ps, w'. rewrite Hrun.
      rewrite filter_cons_False by (by rewrite Hv). done.
    + rewrite counter_add_not_negative by done.
      rewrite add_below; [|done|simpl in Hroom; lia].
      match goal with
      | |- context [counter_add_all c vs ?b ?w1] =>
          destruct (IH b w1) as (ps & w' & Hrun & Hvals & Hall & Hc & Hr)
      end; [done| |].
      { simpl. rewrite length_app. simpl in *. lia. }
      eexists (_ :: ps), w'. rewrite Hrun.
      rewrite filter_cons_True by done. split_and!; try done.
      * unfold MetricsBuffer.set_data. simpl. by rewrite <- app_assoc.
      * cbn [fmap list_fmap]. f_equal. exact Hvals.
      * constructor; [|done]. by split_and!.
Qed.

Lemma counter_keeps_the_values_not_below_zero_witness :
  ∃ points w',
    counter_add_all requests_counter [1; -5; 3; -0.5; 0]%float
      (MetricsBuffer.__init__ "http://localhost:8081/v1/metrics" "key" "svc")
      quiet_world
    = (Returns
         (MetricsBuffer.set_data points
            (MetricsBuffer.__init__ "http://localhost:8081/v1/metrics" "key" "svc")),
       w')
    ∧ MetricDataPoint.value <$> points = [1; 3; 0]%float.
Proof.
  destruct (counter_keeps_the_values_not_below_zero [1; -5; 3; -0.5; 0]%float
              requests_counter
              (MetricsBuffer.__init__ "http://localhost:8081/v1/metrics" "key" "svc")
              quiet_world) as (points & w' & Hrun & Hvals & _).
  - reflexivity.
  - simpl. lia.
  - exists points, w'. split; [exact Hrun | exact Hvals].
Defined.

End counter_runs.

(** ** The span wrapper (client.py)

    The tracing engine is external: a method of the wrapper is embedded as
    the calls it makes on the engine, in order. *)

Module SpanWrapper.
Import TracekitClient.

Inductive SpanKind : Type := SERVER | INTERNAL.

Inductive StatusCode : Type := OK | ERROR.

Inductive engine_call : Type :=
  | tracer_start_span (name : string) (kind : SpanKind)
                      (attributes : Dict.t value)
  | span_set_attributes (attributes : Dict.t value)
  | span_set_status (code : StatusCode)
  | span_add_event (name : string) (attributes : Dict.t value)
  | span_end.

Section wrapper.
Variable str : value → string.

Definition start_trace (operation_name : string)
    (attributes : option (Dict.t value)) : list engine_call :=
  [tracer_start_span operation_name SERVER
     (_normalize_attributes str (default [] attributes))].

Definition start_span (operation_name : string)
    (attributes : option (Dict.t value)) : list engine_call :=
  [tracer_start_span operation_name INTERNAL
     (_normalize_attributes str (default [] attributes))].

Definition end_span (final_attributes : option (Dict.t value))
    (status : string) : list engine_call :=
  match final_attributes with
  | Some (item :: items) =>
      [span_set_attributes (_normalize_attributes str (item :: items))]
  | _ => []
  end
  ++ (if decide (status = "ERROR") then [span_set_status ERROR]
      else if decide (status = "OK") then [span_set_status OK]
      else [])
  ++ [span_end].

Definition add_event (name : string) (attributes : option (Dict.t value))
  : list engine_call :=
  [span_add_event name (_normalize_attributes str (default [] attributes))].

End wrapper.

(** The attributes a call hands to the engine. *)
Definition attributes_of (c : engine_call) : Dict.t value :=
  match c with
  | tracer_start_span _ _ attributes | span_set_attributes attributes
  | span_add_event _ attributes => attributes
  | span_set_status _ | span_end => []
  end.

End SpanWrapper.

Section normalize_more.
Import TracekitClient.

(** The values the normalisation lets through: a string, an integer, a
    float, a boolean, or a list of strings. *)
Definition accepted_value (v : value) : Prop :=
  match v with
  | VStr _ | VInt _ | VFloat _ | VBool _ => True
  | VList items => Forall (λ x, ∃ s, x = VStr s) items
  | _ => False
  end.

Lemma normalized_value_accepted str v : accepted_value (normalized_value str v).
Proof.
  destruct v; simpl; try done; apply Forall_fmap, Forall_forall; intros x _;
    simpl; eauto.
Qed.

Lemma dict_set_Forall {V} (P : string * V → Prop) k v (d : Dict.t V) :
  Forall P d → P (k, v) → Forall P (Dict.set k v d).
Proof.
  induction 1 as [|[k' v'] d Hkv Hd IH]; intros Hnew; simpl.
  - by constructor.
  - destruct (decide (k' = k)) as [->|Hne]; constructor; auto.
Qed.

Lemma normalize_accepted str (attributes : Dict.t value) :
  Forall (λ kv, accepted_value kv.2) (_normalize_attributes str attributes).
Proof.
  unfold _normalize_attributes.
  assert (H : ∀ acc : Dict.t value,
            Forall (λ kv, accepted_value kv.2) acc →
            Forall (λ kv, accepted_value kv.2)
                   (foldl (normalize_step str) acc attributes)).
  { induction attributes as [|[k v] attributes IH]; intros acc Hacc; [done|].
    cbn [foldl]. apply IH. rewrite normalize_step_set.
    apply dict_set_Forall; [done|]. apply normalized_value_accepted. }
  apply H. constructor.
Qed.

(** X19: Whatever attributes the application passes, with keys repeated or not,
    every attribute value that [start_trace], [start_span], [end_span] and
    [add_event] hand to the tracing engine is a string, an integer, a float,
    a boolean or a list of strings. *)
Theorem wrapper_hands_over_accepted_values
    (str : value → string) (name status : string)
    (attributes : option (Dict.t value)) :
  Forall (λ c, Forall (λ kv, accepted_value kv.2) (SpanWrapper.attributes_of c))
    (SpanWrapper.start_trace str name attributes
       ++ SpanWrapper.start_span str name attributes
       ++ SpanWrapper.end_span str attributes status
       ++ SpanWrapper.add_event str name attributes).
Proof.
  apply Forall_forall. intros c.
  unfold SpanWrapper.start_trace, SpanWrapper.start_span,
    SpanWrapper.end_span, SpanWrapper.add_event.
  rewrite !elem_of_app, !list_elem_of_singleton.
  intros [->|[->|[[Hc|[Hc| ->]]| ->]]]; simpl;
    try apply normalize_accepted; try constructor.
  - destruct attributes as [[|item items]|]; try by apply elem_of_nil in Hc.
    apply list_elem_of_singleton in Hc as ->. apply normalize_accepted.
  - destruct (decide (status = "ERROR")).
    + apply list_elem_of_singleton in Hc as ->. constructor.
    + destruct (decide (status = "OK")); [|by apply elem_of_nil in Hc].
      apply list_elem_of_singleton in Hc as ->. constructor.
Qed.

Definition is_end (c : SpanWrapper.engine_call) : bool :=
  match c with
  | SpanWrapper.span_end => true
  | _ => false
  end.

(** X21: [end_span] ends the span once, as its last call, whatever it is given;
    it has no guard of its own against a second call: two calls end the
    span twice.  It sets a status for the exact strings [ERROR] and [OK]
    only, and attributes only when given a non-empty mapping. *)
Theorem end_span_always_ends_the_span
    (str : value → string) (final_attributes : option (Dict.t value))
    (status : string) :
  ∃ before,
    SpanWrapper.end_span str final_attributes status
      = before ++ [SpanWrapper.span_end]
    ∧ (SpanWrapper.span_end ∉ before)
    ∧ (∀ code, (SpanWrapper.span_set_status code ∈ before) ↔
         ((status = "ERROR" ∧ code = SpanWrapper.ERROR)
          ∨ (status = "OK" ∧ code = SpanWrapper.OK)))
    ∧ (∀ attrs, (SpanWrapper.span_set_attributes attrs ∈ before) ↔
         (∃ item items, final_attributes = Some (item :: items)
            ∧ attrs = _normalize_attributes str (item :: items)))
    ∧ ∀ final_attributes' status',
        length (filter (λ c, is_end c = true)
                  (SpanWrapper.end_span str final_attributes status
                     ++ SpanWrapper.end_span str final_attributes' status'))
        = 2%nat.
Proof.
  unfold SpanWrapper.end_span. eexists (_ ++ _). split; [by rewrite app_assoc|].
  split_and!.
  - rewrite elem_of_app. intros [Hc|Hc].
    + destruct final_attributes as [[|item items]|];
        try (by apply elem_of_nil in Hc).
      by apply list_elem_of_singleton in Hc.
    + destruct (decide (status = "ERROR"));
        [by apply list_elem_of_singleton in Hc|].
      destruct (decide (status = "OK"));
        [by apply list_elem_of_singleton in Hc|by apply elem_of_nil in Hc].
  - intros code. rewrite elem_of_app. split.
    + intros [Hc|Hc].
      * destruct final_attributes as [[|item items]|];
          try (by apply elem_of_nil in Hc).
        by apply list_elem_of_singleton in Hc.
      * destruct (decide (status = "ERROR")) as [->|Hne].
        { apply list_elem_of_singleton in Hc as [= ->]. by left. }
        destruct (decide (status = "OK")) as [->|Hne'];
          [|by apply elem_of_nil in Hc].
        apply list_elem_of_singleton in Hc as [= ->]. by right.
    + intros [[-> ->]|[-> ->]]; right.
      * rewrite decide_True by done. by apply list_elem_of_singleton.
      * rewrite decide_False by done. rewrite decide_True by done.
        by apply list_elem_of_singleton.
  - intros attrs. rewrite elem_of_app. split.
    + intros [Hc|Hc].
      * destruct final_attributes as [[|item items]|];
          try (by apply elem_of_nil in Hc).
        apply list_elem_of_singleton in Hc as [= ->]. eauto.
      * destruct (decide (status = "ERROR"));
          [by apply list_elem_of_singleton in Hc|].
        destruct (decide (status = "OK"));
          [by apply list_elem_of_singleton in Hc|by apply elem_of_nil in Hc].
    + intros (item & items & -> & ->). left. by apply list_elem_of_singleton.
  - intros final_attributes' status'.
    destruct final_attributes as [[|? ?]|], final_attributes' as [[|? ?]|],
      (decide (status = "ERROR")), (decide (status = "OK")),
      (decide (status' = "ERROR")), (decide (status' = "OK")); reflexivity.
Qed.

End normalize_more.

Section normalize_idempotent.
Import TracekitClient.

Lemma normalized_value_idem (str : value → string) (v : value) :
  (∀ s, str (VStr s) = s) →
  normalized_value str (normalized_value str v) = normalized_value str v.
Proof.
  intros Hstr. destruct v; simpl; try done.
  - f_equal. rewrite <- list_fmap_compose. apply list_fmap_ext.
    intros i x _. simpl. by rewrite Hstr.
  - f_equal. rewrite <- list_fmap_compose. apply list_fmap_ext.
    intros i x _. simpl. by rewrite Hstr.
Qed.

(** X20: Normalising twice is normalising once (the string of a string being
    that string): what the wrapper hands to the engine is a fixed point of
    the normalisation. *)
Theorem normalize_attributes_idempotent
    (str : value → string) (attributes : Dict.t value) :
  (∀ s, str (VStr s) = s) →
  NoDup (Dict.keys attributes) →
  _normalize_attributes str (_normalize_attributes str attributes)
  = _normalize_attributes str attributes.
Proof.
  intros Hstr Hnd.
  assert (Heq : _normalize_attributes str attributes
                = prod_map id (normalized_value str) <$> attributes).
  { unfold _normalize_attributes. by rewrite normalize_foldl. }
  rewrite Heq. unfold _normalize_attributes at 1. rewrite normalize_foldl.
  - simpl. rewrite <- list_fmap_compose. apply list_fmap_ext.
    intros i [k v] _. simpl. unfold prod_map. simpl.
    by rewrite normalized_value_idem.
  - simpl. unfold Dict.keys in *. rewrite <- list_fmap_compose.
    erewrite list_fmap_ext; [exact Hnd|]. by intros i [k v] _.
Qed.

Lemma normalize_attributes_idempotent_witness :
  _normalize_attributes sample_str
    (_normalize_attributes sample_str sample_attributes)
  = _normalize_attributes sample_str sample_attributes.
Proof.
  apply (normalize_attributes_idempotent sample_str sample_attributes).
  - reflexivity.
  - compute_done.
Defined.

End normalize_idempotent.

(** ** [extract_client_ip_from_headers] (utils.py)

    The builtins [str.lower] and [str.strip] are parameters. *)

Module Utils.

(** [s.split(sep)] for a one-character separator. *)
Fixpoint split (sep : ascii) (s : string) : list string :=
  match s with
  | EmptyString => [EmptyString]
  | String c rest =>
      if Ascii.eqb c sep then EmptyString :: split sep rest
      else match split sep rest with
           | part :: parts => String c part :: parts
           | [] => [String c EmptyString]
           end
  end.

Section extract.
Variable lower : string → string.
Variable strip : string → string.

(** [{k.lower(): v for k, v in headers.items()}] *)
Definition normalize_headers (headers : Dict.t string) : Dict.t string :=
  foldl (λ normalized kv, Dict.set (lower kv.1) kv.2 normalized) [] headers.

Definition extract_client_ip_from_headers
    (headers : Dict.t string) (remote_addr : option string) : option string :=
  let normalized_headers := normalize_headers headers in
  let after_forwarded_for :=
    let x_real_ip := Dict.get "x-real-ip" normalized_headers in
    match x_real_ip with
    | Some (String c s) => Some (strip (String c s))
    | _ => remote_addr
    end in
  let x_forwarded_for := Dict.get "x-forwarded-for" normalized_headers in
  match x_forwarded_for with
  | Some (String c s) =>
      let ips := split "," (String c s) in
      match ips with
      | ip :: _ => Some (strip ip)
      | [] => after_forwarded_for
      end
  | _ => after_forwarded_for
  end.

End extract.
End Utils.

Section utils_properties.
Variable lower : string → string.
Variable strip : string → string.

(** The value of the last header whose lowered name is [name]. *)
Definition header (headers : list (string * string)) (name : string)
  : option string :=
  snd <$> last (filter (λ kv : string * string, lower kv.1 = name) headers).

(** The text before the first comma. *)
Definition first_field (s : string) : string :=
  match PyStr.cut "," s with
  | Some (field, _) => field
  | None => s
  end.

Lemma dict_get_set {V} (k k' : string) (v : V) (d : Dict.t V) :
  Dict.get k (Dict.set k' v d) = if decide (k' = k) then Some v else Dict.get k d.
Proof.
  induction d as [|[k0 v0] d IH]; simpl.
  - done.
  - destruct (decide (k0 = k')) as [->|Hne]; simpl.
    + by destruct (decide (k' = k)).
    + rewrite IH. destruct (decide (k0 = k)) as [->|]; [|done].
      by rewrite decide_False.
Qed.

Lemma get_normalize_headers (name : string) (headers : list (string * string)) :
  Dict.get name (Utils.normalize_headers lower headers) = header headers name.
Proof.
  unfold Utils.normalize_headers, header.
  assert (H : ∀ acc : Dict.t string,
            Dict.get name
              (foldl (λ normalized kv, Dict.set (lower kv.1) kv.2 normalized)
                     acc headers)
            = match last (filter (λ kv : string * string, lower kv.1 = name) headers) with
              | Some kv => Some kv.2
              | None => Dict.get name acc
              end).
  { induction headers as [|[k v] headers IH]; intros acc; [done|].
    cbn [foldl]. rewrite IH, dict_get_set. cbn [fst snd].
    destruct (decide (lower k = name)) as [Hk|Hk].
    - rewrite filter_cons_True by done. rewrite last_cons.
      by destruct (last _).
    - by rewrite filter_cons_False by done. }
  rewrite H. by destruct (last _).
Qed.

Lemma split_head (s : string) :
  ∃ rest, Utils.split "," s = first_field s :: rest.
Proof.
  unfold first_field. induction s as [|c s (rest & IH)]; simpl; [by eauto|].
  destruct (Ascii.eqb c ","); [by eauto|]. rewrite IH.
  destruct (PyStr.cut "," s) as [[field after]|]; simpl; eauto.
Qed.

Lemma first_field_free (s : string) : free "," (first_field s).
Proof.
  unfold first_field, free. induction s as [|c s IH]; simpl; [done|].
  destruct (Ascii.eqb c ",") eqn:Hc; [done|].
  destruct (PyStr.cut "," s) as [[field after]|] eqn:Hs; simpl in *.
  - by rewrite Hc, IH.
  - by rewrite Hc, Hs.
Qed.

(** X22: Header names are matched whatever their case, the last of the matching
    headers counting.  A non-empty [X-Forwarded-For] decides alone: the
    result is its text before the first comma, stripped, the other headers
    and the remote address being ignored.  Otherwise a non-empty
    [X-Real-IP] decides, stripped.  Otherwise the remote address is
    returned as given. *)
Theorem extract_client_ip_precedence
    (headers : Dict.t string) (remote_addr : option string) :
  Utils.extract_client_ip_from_headers lower strip headers remote_addr
  = match header headers "x-forwarded-for" with
    | Some (String c s) => Some (strip (first_field (String c s)))
    | _ =>
        match header headers "x-real-ip" with
        | Some (String c s) => Some (strip (String c s))
        | _ => remote_addr
        end
    end
  ∧ ∀ s, free "," (first_field s).
Proof.
  split; [|apply first_field_free].
  unfold Utils.extract_client_ip_from_headers.
  rewrite !get_normalize_headers.
  destruct (header headers "x-forwarded-for") as [[|c s]|]; try done.
  destruct (split_head (String c s)) as (rest & ->). done.
Qed.

End utils_properties.

(** Stand-ins for [str.lower] and [str.strip] on ASCII text, for closed
    examples. *)
Definition lower_char (c : ascii) : ascii :=
  let n := nat_of_ascii c in
  if bool_decide (65 ≤ n ≤ 90)%nat then ascii_of_nat (n + 32) else c.

Fixpoint ascii_lower (s : string) : string :=
  match s with
  | EmptyString => EmptyString
  | String c rest => String (lower_char c) (ascii_lower rest)
  end.

Definition is_space (c : ascii) : bool :=
  let n := nat_of_ascii c in bool_decide (n = 32 ∨ 9 ≤ n ≤ 13)%nat.

Fixpoint lstrip (s : string) : string :=
  match s with
  | String c rest => if is_space c then lstrip rest else s
  | EmptyString => EmptyString
  end.

Fixpoint rstrip (s : string) : string :=
  match s with
  | String c rest =>
      match rstrip rest with
      | EmptyString => if is_space c then EmptyString else String c EmptyString
      | kept => String c kept
      end
  | EmptyString => EmptyString
  end.

Definition ascii_strip (s : string) : string := rstrip (lstrip s).

Example extract_client_ip_docstring :
  Utils.extract_client_ip_from_headers ascii_lower ascii_strip
    [("x-forwarded-for", "203.0.113.1, 198.51.100.1")] None
  = Some "203.0.113.1"
  ∧ Utils.extract_client_ip_from_headers ascii_lower ascii_strip
      [("x-real-ip", "203.0.113.1")] None
    = Some "203.0.113.1"
  ∧ Utils.extract_client_ip_from_headers ascii_lower ascii_strip
      [] (Some "198.51.100.1")
    = Some "198.51.100.1".
Proof. by vm_compute. Qed.

Example extract_client_ip_mixed_case :
  Utils.extract_client_ip_from_headers ascii_lower ascii_strip
    [("X-Real-IP", "10.0.0.1");
     ("x-forwarded-for", "192.0.2.9");
     ("X-Forwarded-For", " 203.0.113.7 ,10.0.0.2")]
    (Some "198.51.100.1")
  = Some "203.0.113.7".
Proof. by vm_compute. Qed.

(** ** A flush that succeeds *)

Section flush_succeeds.
Import MetricsBuffer.

Lemma to_otlp_returns ex (dps : list MetricDataPoint.t) :
  (∀ dp, dp ∈ dps →
     ∃ ns, py_int (MetricDataPoint.timestamp dp * 1000000000)%float = Returns ns) →
  ∃ payload, MetricsExporter._to_otlp ex dps = Returns payload.
Proof.
  intros Hts. destruct (group_filed dps) as (ks & Hg & _ & Hks).
  destruct (omap_Forall2 MetricsExporter.metric_of_group (λ _ _, True)
              (filed dps <$> ks)) as (ms & Hms & _).
  { intros x (k & -> & Hk)%list_elem_of_fmap.
    apply Hks in Hk as (d & Hd & <-).
    unfold MetricsExporter.metric_of_group, filed, PyStr.split1.
    destruct (cut_after_colon (MetricDataPoint.name d)
                (MetricDataPoint.metric_type d)) as (a & b & Hcut).
    unfold group_key at 1. rewrite Hcut.
    destruct (omap_Forall2 MetricsExporter.otlp_data_point (λ _ _, True)
                (filter (λ dp, group_key dp = group_key d) dps))
      as (ps & -> & _).
    { intros x [_ Hx]%list_elem_of_filter.
      destruct (otlp_data_point_encoded x (Hts x Hx)) as (p & -> & _). eauto. }
    simpl. destruct (decide (b = "counter")); eauto. }
  unfold MetricsExporter._to_otlp. rewrite Hg, Hms. simpl. eauto.
Qed.

(** X9: When [int] accepts the timestamp of every pending point,
    [urlparse] accepts the endpoint and gives a readable port, the
    connection object is made, and a response of status 200 arrives and is
    read, a flush of a non-empty buffer makes exactly one request, which
    carries the payload [_to_otlp] makes of the whole pending list, prints
    nothing, and leaves the buffer empty. *)
Theorem flush_answered_200_sends_one_request
    (self : t) (url : Url.t) (port : option Z) (w : World) :
  data self ≠ [] →
  (∀ dp, dp ∈ data self →
     ∃ ns, py_int (MetricDataPoint.timestamp dp * 1000000000)%float = Returns ns) →
  urlparse w (MetricsExporter.endpoint (exporter self)) = Returns url →
  Url.port url = Returns port →
  connection_init w (is_https url) (Url.hostname url) (port_of url port)
    = Returns () →
  (∀ req, collector w (length (requests w)) req = Response 200) →
  ∃ payload w',
    MetricsExporter._to_otlp (exporter self) (data self) = Returns payload
    ∧ _flush self w = (Returns (set_data [] self), w')
    ∧ requests w' = requests w ++ [request_of (exporter self) url port payload]
    ∧ stdout w' = stdout w
    ∧ export_calls w' = export_calls w ++ [data self].
Proof.
  intros Hne Hts Hurl Hport Hconn Hcol.
  destruct (to_otlp_returns (exporter self) (data self) Hts) as (payload & Hp).
  exists payload. unfold _flush.
  destruct (data self) as [|p batch] eqn:Hd; [done|].
  unfold bind, try_except, MetricsExporter.export, enter_export, lift,
    parse_url, new_connection, request_getresponse, response_read, ret, raise.
  simpl. unfold bind. simpl. rewrite Hp. simpl. rewrite Hurl. simpl.
  rewrite Hport. simpl. fold (is_https url). fold (port_of url port).
  rewrite Hconn. simpl. rewrite Hcol. simpl.
  eexists. split_and!; reflexivity.
Qed.

Lemma flush_answered_200_sends_one_request_witness :
  ∃ payload w',
    _flush pending_buffer quiet_world = (Returns (set_data [] pending_buffer), w')
    ∧ requests w'
      = [mkHttpRequest false (Some "localhost") 8081 "/v1/metrics"
           [("Content-Type", "application/json"); ("X-API-Key", "key")]
           payload]
    ∧ stdout w' = [].
Proof.
  destruct (flush_answered_200_sends_one_request pending_buffer
              (Url.mk "http" (Some "localhost") (Returns (Some 8081%Z))
                      "/v1/metrics")
              (Some 8081%Z) quiet_world)
    as (payload & w' & _ & Hf & Hr & Hs & _).
  - discriminate.
  - intros dp Hdp. apply elem_of_cons in Hdp as [->|Hdp].
    + eexists. vm_compute. reflexivity.
    + apply list_elem_of_singleton in Hdp as ->. eexists. vm_compute. reflexivity.
  - reflexivity.
  - reflexivity.
  - reflexivity.
  - reflexivity.
  - exists payload, w'. split; [exact Hf|]. split; [exact Hr | exact Hs].
Defined.

End flush_succeeds.

Lemma to_otlp_groups_by_name_and_type_witness :
  ∃ (groups : list (string * string)) (metrics : list Otlp.Metric),
    MetricsExporter._to_otlp sample_exporter
      [MetricDataPoint.mk "req" [("route", "/")] 1 1700000000 "counter";
       MetricDataPoint.mk "mem" [] 512 1700000001 "gauge"]
    = Returns (payload_of sample_exporter metrics)
    ∧ NoDup groups
    ∧ (∀ g, g ∈ groups ↔
         ∃ dp, dp ∈ [MetricDataPoint.mk "req" [("route", "/")] 1 1700000000 "counter";
                     MetricDataPoint.mk "mem" [] 512 1700000001 "gauge"]
               ∧ pair_of dp = g)
    ∧ Forall2
        (encodes [MetricDataPoint.mk "req" [("route", "/")] 1 1700000000 "counter";
                  MetricDataPoint.mk "mem" [] 512 1700000001 "gauge"])
        groups metrics.
Proof.
  apply (to_otlp_groups_by_name_and_type sample_exporter
           [MetricDataPoint.mk "req" [("route", "/")] 1 1700000000 "counter";
            MetricDataPoint.mk "mem" [] 512 1700000001 "gauge"]).
  intros dp Hdp. apply elem_of_cons in Hdp as [->|Hdp].
  - split; [reflexivity|]. eexists. vm_compute. reflexivity.
  - apply list_elem_of_singleton in Hdp as ->.
    split; [reflexivity|]. eexists. vm_compute. reflexivity.
Defined.

(** * Part IV: calls of several threads that overlap

    A thread runs a list of calls.  A call is split at the points where the
    source lets another thread run in between: [add] tests [self._shutdown]
    before it takes the lock, and calls [_flush] after it has released it;
    [_flush] swaps the pending list out under the lock and calls
    [exporter.export] after it has released it; [shutdown] sets the flag,
    waits for the worker for a bounded time, and calls [_flush].

    A block run under [self._lock] is one step: the pending list is read
    and written under the lock only, and no such block touches the flag.
    A test or an assignment of the flag is one step.  A call of [export]
    with its handler is one step too: the exporter reads and writes neither
    the pending list nor the flag, and nothing proved of the threads depends
    on the outcome of a call of [export].  A schedule names the thread that
    takes each step; every schedule is allowed, which covers every outcome
    of the bounded wait for the worker. *)

Module Threads.
Import MetricsBuffer.

(** Where a thread stands. *)
Inductive place : Type :=
  | Idle                                       (* between two calls *)
  | AddTest (p : MetricDataPoint.t)            (* add: at [if self._shutdown] *)
  | AddAppend (p : MetricDataPoint.t)          (* add: at [with self._lock] *)
  | WakeupTest                                 (* _flush_loop: after the sleep *)
  | ShutdownSet                                (* shutdown: at the assignment *)
  | FlushSwap                                  (* _flush: at [with self._lock] *)
  | FlushExport (to_export : list MetricDataPoint.t).  (* _flush: at [try] *)

Definition thread : Type := place * list op.

(** The call of [export] at the end of [_flush], with its handler. *)
Definition export_caught (self : t) (to_export : list MetricDataPoint.t)
  : M unit :=
  try_except
    (MetricsExporter.export (exporter self) to_export)
    (λ e, print ("Failed to export metrics: " +:+ exn_str e)).

(** One step of a thread.  An exception that leaves a call ends the
    thread. *)
Definition thread_step (th : thread) (b : t) (w : World) : thread * t * World :=
  let '(at_, todo) := th in
  match at_ with
  | Idle =>
      match todo with
      | [] => (th, b, w)
      | Add p :: todo' => ((AddTest p, todo'), b, w)
      | Wakeup :: todo' => ((WakeupTest, todo'), b, w)
      | Shutdown :: todo' => ((ShutdownSet, todo'), b, w)
      end
  | AddTest p =>
      if _shutdown b then ((Idle, todo), b, w)
      else ((AddAppend p, todo), b, w)
  | AddAppend p =>
      let b := set_data (data b ++ [p]) b in
      let should_flush := bool_decide (max_size b ≤ Z.of_nat (length (data b)))%Z in
      ((if should_flush then FlushSwap else Idle, todo), b, w)
  | WakeupTest =>
      ((if negb (_shutdown b) then FlushSwap else Idle, todo), b, w)
  | ShutdownSet => ((FlushSwap, todo), set_shutdown true b, w)
  | FlushSwap =>
      match data b with
      | [] => ((Idle, todo), b, w)
      | to_export => ((FlushExport to_export, todo), set_data [] b, w)
      end
  | FlushExport to_export =>
      match export_caught b to_export w with
      | (Returns _, w') => ((Idle, todo), b, w')
      | (Raises _, w') => ((Idle, []), b, w')
      end
  end.

Record system : Type := mkSystem {
  threads : list thread;
  buffer : t;
  world : World;
}.

Definition system_step (s : system) (i : nat) : system :=
  match threads s !! i with
  | None => s
  | Some th =>
      let '(th', b, w) := thread_step th (buffer s) (world s) in
      mkSystem (<[i := th']> (threads s)) b w
  end.

Definition exec (schedule : list nat) (s : system) : system :=
  foldl system_step s schedule.

(** The points of the calls of [add] in a list of calls. *)
Fixpoint points_of_ops (ops : list op) : list MetricDataPoint.t :=
  match ops with
  | [] => []
  | Add p :: ops' => p :: points_of_ops ops'
  | _ :: ops' => points_of_ops ops'
  end.

(** The points a thread holds: swapped out of the buffer and not yet passed
    to [export], or past the test of the flag and not yet appended. *)
Definition held (th : thread) : list MetricDataPoint.t :=
  match th.1 with
  | FlushExport to_export => to_export
  | AddAppend p => [p]
  | _ => []
  end.

(** The points a thread has yet to offer: of an [add] that has not tested
    the flag yet, and of the calls still to make. *)
Definition offered (th : thread) : list MetricDataPoint.t :=
  match th.1 with
  | AddTest p => p :: points_of_ops th.2
  | _ => points_of_ops th.2
  end.

(** The points the system has taken in: handed to [export], pending in the
    buffer, or held by a thread. *)
Definition kept (s : system) : list MetricDataPoint.t :=
  concat (export_calls (world s)) ++ data (buffer s) ++ (threads s ≫= held).

Definition to_come (s : system) : list MetricDataPoint.t :=
  threads s ≫= offered.

End Threads.

Section threads_facts.
Import MetricsBuffer Threads.

(** The call of [export] with its handler always returns, and hands over
    its batch; it sends at most one request. *)
Lemma export_caught_returns b batch w :
  ∃ w', export_caught b batch w = (Returns (), w')
    ∧ export_calls w' = export_calls w ++ [batch]
    ∧ (length (requests w') ≤ S (length (requests w)))%nat.
Proof.
  unfold export_caught, try_except.
  destruct (export_effects (exporter b) batch w)
    as (r & w' & -> & Hc & Hs & Hr & _).
  destruct r as [[]|e]; [eauto with lia|].
  eexists. split; [reflexivity|]. simpl. split; [done|lia].
Qed.

Lemma set_shutdown_true b : _shutdown b = true → set_shutdown true b = b.
Proof. destruct b; simpl; by intros ->. Qed.

(** A thread that stands neither inside an [add] past the test of the flag
    nor inside a flush past the swap. *)
Definition resting (th : thread) : Prop :=
  match th.1 with
  | AddAppend _ | FlushExport _ => False
  | _ => True
  end.

(** A thread that stands at no flush and has no [shutdown] to call: once
    the flag is set, it reaches no flush. *)
Definition calm (th : thread) : Prop :=
  match th.1 with
  | Idle | AddTest _ | WakeupTest => Forall (λ o, o ≠ Shutdown) th.2
  | _ => False
  end.

Local Ltac account :=
  rewrite ?app_nil_r; unfold held, offered; simpl; rewrite ?app_nil_r;
  split_and!; try done; try lia; try solve_Permutation;
  try (intros ?; rewrite ?app_nil_r; split_and!; try done; solve_Permutation).

(** One step of a thread: what it hands to [export], what it drops, and
    what becomes of the points it holds and has yet to offer. *)
Lemma thread_step_account th b w :
  ∃ th' b' w' batches dropped,
    thread_step th b w = (th', b', w')
    ∧ export_calls w' = export_calls w ++ batches
    ∧ (length (requests w') ≤ length (requests w) + length batches)%nat
    ∧ concat batches ++ data b' ++ held th' ++ offered th' ++ dropped
        ≡ₚ data b ++ held th ++ offered th
    ∧ (_shutdown b = false → dropped = [])
    ∧ (_shutdown b = true →
         _shutdown b' = true
         ∧ concat batches ++ data b' ++ held th' ≡ₚ data b ++ held th
         ∧ offered th' ++ dropped ≡ₚ offered th)
    ∧ exporter b' = exporter b ∧ max_size b' = max_size b.
Proof.
  destruct th as [at_ todo]. destruct at_ as [|p|p| | | |batch].
  - (* Idle *)
    destruct todo as [|[p| |] todo'];
      (eexists _, _, _, [], []; split; [reflexivity|]; account).
  - (* AddTest *)
    simpl. destruct (_shutdown b) eqn:Hs.
    + eexists _, _, _, [], [p]. split; [reflexivity|]. account.
    + eexists _, _, _, [], []. split; [reflexivity|]. account.
  - (* AddAppend *)
    simpl. eexists _, _, _, [], []. split; [reflexivity|].
    case_bool_decide; account.
  - (* WakeupTest *)
    simpl. eexists _, _, _, [], []. split; [reflexivity|].
    destruct (_shutdown b); account.
  - (* ShutdownSet *)
    simpl. eexists _, _, _, [], []. split; [reflexivity|]. account.
  - (* FlushSwap *)
    simpl. destruct (data b) as [|p batch] eqn:Hd.
    + eexists _, _, _, [], []. split; [reflexivity|]. rewrite ?Hd. account.
    + eexists _, _, _, [], []. split; [reflexivity|]. account.
  - (* FlushExport *)
    simpl.
    destruct (export_caught_returns b batch w) as (w' & -> & Hc & Hr).
    eexists _, _, _, [batch], []. split; [reflexivity|]. account.
Qed.

Lemma bind_insert {A B} (f : A → list B) (l : list A) i x y :
  l !! i = Some x →
  ∃ rest, l ≫= f ≡ₚ f x ++ rest ∧ <[i:=y]> l ≫= f ≡ₚ f y ++ rest.
Proof.
  intros Hi. exists (delete i l ≫= f). split.
  - by rewrite (delete_Permutation l i x Hi) at 1.
  - rewrite insert_take_drop by (by eapply lookup_lt_Some).
    rewrite delete_take_drop, !bind_app, bind_cons. solve_Permutation.
Qed.

Lemma system_step_at s i th th' b' w' :
  threads s !! i = Some th →
  thread_step th (buffer s) (world s) = (th', b', w') →
  system_step s i = mkSystem (<[i := th']> (threads s)) b' w'.
Proof. unfold system_step. by intros -> ->. Qed.

Lemma system_step_idle s i : threads s !! i = None → system_step s i = s.
Proof. unfold system_step. by intros ->. Qed.

Lemma system_step_account s i :
  ∃ batches dropped,
    export_calls (world (system_step s i)) = export_calls (world s) ++ batches
    ∧ (length (requests (world (system_step s i)))
       ≤ length (requests (world s)) + length batches)%nat
    ∧ kept (system_step s i) ++ to_come (system_step s i) ++ dropped
        ≡ₚ kept s ++ to_come s
    ∧ (_shutdown (buffer s) = false → dropped = [])
    ∧ (_shutdown (buffer s) = true →
         _shutdown (buffer (system_step s i)) = true
         ∧ kept (system_step s i) ≡ₚ kept s
         ∧ to_come (system_step s i) ++ dropped ≡ₚ to_come s)
    ∧ exporter (buffer (system_step s i)) = exporter (buffer s)
    ∧ max_size (buffer (system_step s i)) = max_size (buffer s)
    ∧ length (threads (system_step s i)) = length (threads s).
Proof.
  destruct (threads s !! i) as [th|] eqn:Hi.
  2:{ rewrite system_step_idle by done. exists [], [].
      rewrite !app_nil_r. split_and!; try done; lia. }
  destruct (thread_step_account th (buffer s) (world s))
    as (th' & b' & w' & batches & dropped & Hstep & Hc & Hr & Hall & Hlive
        & Hdown & He & Hm).
  rewrite (system_step_at _ _ _ _ _ _ Hi Hstep).
  exists batches, dropped. unfold kept, to_come. simpl.
  destruct (bind_insert held (threads s) i th th' Hi) as (rh & Hh & Hh').
  destruct (bind_insert offered (threads s) i th th' Hi) as (ro & Ho & Ho').
  rewrite Hc, concat_app, Hh, Hh', Ho, Ho', length_insert.
  split_and!; try done.
  - transitivity (concat (export_calls (world s)) ++ rh ++ ro
                  ++ (concat batches ++ data b' ++ held th' ++ offered th'
                      ++ dropped)); [solve_Permutation|].
    rewrite Hall. solve_Permutation.
  - intros Hs. destruct (Hdown Hs) as (Hs' & Hkept & Hoff).
    split_and!; [done| |].
    + transitivity (concat (export_calls (world s)) ++ rh
                    ++ (concat batches ++ data b' ++ held th'));
        [solve_Permutation|].
      rewrite Hkept. solve_Permutation.
    + transitivity (ro ++ (offered th' ++ dropped)); [solve_Permutation|].
      rewrite Hoff. solve_Permutation.
Qed.

Lemma exec_cons i schedule s :
  exec (i :: schedule) s = exec schedule (system_step s i).
Proof. done. Qed.

Local Ltac stepped := eexists; split; [reflexivity|]; simpl; done.

(** Once the flag is set, a step of a thread that rests leaves a buffer
    with nothing pending, and the world, as they are. *)
Lemma thread_step_resting th b w :
  _shutdown b = true → data b = [] → resting th →
  ∃ th', thread_step th b w = (th', b, w) ∧ resting th'.
Proof.
  intros Hs Hd. destruct th as [at_ todo].
  destruct at_ as [|p|p| | | |batch]; unfold resting; simpl; try done; intros _.
  - destruct todo as [|[p| |] todo']; stepped.
  - rewrite Hs. stepped.
  - rewrite Hs. simpl. stepped.
  - rewrite (set_shutdown_true b Hs). stepped.
  - rewrite Hd. stepped.
Qed.

(** Once the flag is set, a step of a calm thread leaves the buffer and
    the world as they are, whatever is pending. *)
Lemma thread_step_calm th b w :
  _shutdown b = true → calm th →
  ∃ th', thread_step th b w = (th', b, w) ∧ calm th'.
Proof.
  intros Hs. destruct th as [at_ todo].
  destruct at_ as [|p|p| | | |batch]; unfold calm; simpl; try done; intros Ht.
  - destruct todo as [|[p| |] todo']; [stepped| | |].
    + apply Forall_cons in Ht as [_ Ht]. stepped.
    + apply Forall_cons in Ht as [_ Ht]. stepped.
    + by apply Forall_cons in Ht as [? _].
  - rewrite Hs. stepped.
  - rewrite Hs. simpl. stepped.
Qed.

Lemma exec_unchanged (good : thread → Prop) (ok : t → Prop) :
  (∀ th b w, ok b → good th →
     ∃ th', thread_step th b w = (th', b, w) ∧ good th') →
  ∀ schedule s, ok (buffer s) → Forall good (threads s) →
    buffer (exec schedule s) = buffer s
    ∧ world (exec schedule s) = world s
    ∧ Forall good (threads (exec schedule s)).
Proof.
  intros Hstep schedule.
  induction schedule as [|i schedule IH]; intros s Hok Hgood; [done|].
  rewrite exec_cons.
  destruct (threads s !! i) as [th|] eqn:Hi.
  2:{ rewrite system_step_idle by done. by apply IH. }
  destruct (Hstep th (buffer s) (world s) Hok) as (th' & Hth & Hgood').
  { by eapply Forall_lookup_1. }
  rewrite (system_step_at _ _ _ _ _ _ Hi Hth).
  destruct (IH (mkSystem (<[i:=th']> (threads s)) (buffer s) (world s)))
    as (Hb & Hw & Hg); simpl; [done|by apply Forall_insert|done].
Qed.


(** X15: Once the flag is set it stays set, and no point is taken in any
    more, however the steps of the threads interleave: the points handed
    to [export], pending or held by a thread stay what they are, up to
    their order, and every point still to be offered is either still to be
    offered or dropped.  If, moreover, nothing is pending and no thread
    stands inside an [add] past its test of the flag or inside a flush past
    its swap, then no step changes the buffer or the world again. *)
Theorem shutdown_flag_is_final schedule : ∀ s,
  _shutdown (buffer s) = true →
  _shutdown (buffer (exec schedule s)) = true
  ∧ kept (exec schedule s) ≡ₚ kept s
  ∧ (∃ dropped, to_come (exec schedule s) ++ dropped ≡ₚ to_come s)
  ∧ (data (buffer s) = [] → Forall resting (threads s) →
       buffer (exec schedule s) = buffer s
       ∧ world (exec schedule s) = world s).
Proof.
  intros s Hs. split_and!.
  - revert s Hs. induction schedule as [|i schedule IH]; intros s Hs; [done|].
    rewrite exec_cons. apply IH.
    destruct (system_step_account s i) as (? & ? & _ & _ & _ & _ & Hdown & _).
    by apply Hdown.
  - revert s Hs. induction schedule as [|i schedule IH]; intros s Hs; [done|].
    rewrite exec_cons.
    destruct (system_step_account s i) as (? & ? & _ & _ & _ & _ & Hdown & _).
    destruct (Hdown Hs) as (Hs' & Hkept & _).
    by rewrite IH.
  - revert s Hs. induction schedule as [|i schedule IH]; intros s Hs.
    { exists []. by rewrite app_nil_r. }
    rewrite exec_cons.
    destruct (system_step_account s i)
      as (? & dropped1 & _ & _ & _ & _ & Hdown & _).
    destruct (Hdown Hs) as (Hs' & _ & Hoff).
    destruct (IH _ Hs') as (dropped2 & Hoff2).
    exists (dropped2 ++ dropped1).
    by rewrite <- Hoff, <- Hoff2, (assoc_L (++)).
  - intros Hd Hrest.
    destruct (exec_unchanged resting (λ b, _shutdown b = true ∧ data b = [])
                (λ th b w Hb, thread_step_resting th b w (proj1 Hb) (proj2 Hb))
                schedule s) as (Hb & Hw & _); done.
Qed.

Lemma shutdown_flag_is_final_witness :
  let s := mkSystem [(Idle, [Add (sample_point 1); Wakeup]); (WakeupTest, [Shutdown])]
                    (set_shutdown true
                       (__init__ "http://localhost:8081/v1/metrics" "key" "svc"))
                    quiet_world in
  _shutdown (buffer s) = true
  ∧ buffer (exec [0; 1; 0; 1; 1; 0; 0; 1]%nat s) = buffer s
  ∧ world (exec [0; 1; 0; 1; 1; 0; 0; 1]%nat s) = world s.
Proof.
  intros s. split; [reflexivity|].
  destruct (shutdown_flag_is_final [0; 1; 0; 1; 1; 0; 0; 1]%nat s)
    as (_ & _ & _ & Hquiet); [reflexivity|].
  apply Hquiet; [reflexivity|].
  repeat constructor.
Defined.

Local Ltac scheduled tac :=
  rewrite exec_cons;
  erewrite system_step_at; [|reflexivity|simpl; tac; reflexivity];
  cbn [threads buffer world].

(** X2: A point can be left behind by [shutdown].  A thread calls [add]
    on a live, empty buffer and tests the flag; before it takes the lock
    another thread runs [shutdown] to its end, whose final flush finds
    nothing pending; then the first thread appends its point.  Both calls
    have returned, the flag is set, the point is pending and has not been
    handed to [export]; and it stays so whatever calls of [add] and
    whatever wake-ups of the worker follow, from any number of threads. *)
Theorem add_racing_shutdown_strands_point p b w :
  _shutdown b = false → data b = [] → (1 < max_size b)%Z →
  let s := mkSystem [(Idle, [Add p]); (Idle, [Shutdown])] b w in
  let s' := exec [0; 0; 1; 1; 1; 0]%nat s in
  threads s' = [(Idle, []); (Idle, [])]
  ∧ buffer s' = set_data [p] (set_shutdown true b)
  ∧ world s' = w
  ∧ ∀ others schedule, Forall calm others →
      buffer (exec schedule (mkSystem others (buffer s') w)) = buffer s'
      ∧ world (exec schedule (mkSystem others (buffer s') w)) = w.
Proof.
  intros Hs Hd Hm s s'.
  assert (s' = mkSystem [(Idle, []); (Idle, [])]
                        (set_data [p] (set_shutdown true b)) w) as ->.
  { unfold s', s.
    scheduled idtac. scheduled ltac:(rewrite Hs).
    scheduled idtac. scheduled idtac. scheduled ltac:(rewrite Hd).
    scheduled ltac:(rewrite Hd; simpl; rewrite bool_decide_eq_false_2 by lia).
    reflexivity. }
  simpl. split_and!; try done.
  intros others schedule Hcalm.
  destruct (exec_unchanged calm (λ b, _shutdown b = true) thread_step_calm
              schedule (mkSystem others (set_data [p] (set_shutdown true b)) w))
    as (Hb & Hw & _); done.
Qed.

Lemma add_racing_shutdown_strands_point_witness :
  let b := __init__ "http://localhost:8081/v1/metrics" "key" "svc" in
  let s := mkSystem [(Idle, [Add (sample_point 1)]); (Idle, [Shutdown])]
                    b quiet_world in
  (_shutdown b = false ∧ data b = [] ∧ (1 < max_size b)%Z)
  ∧ data (buffer (exec [0; 0; 1; 1; 1; 0]%nat s)) = [sample_point 1]
  ∧ _shutdown (buffer (exec [0; 0; 1; 1; 1; 0]%nat s)) = true
  ∧ export_calls (world (exec [0; 0; 1; 1; 1; 0]%nat s)) = [].
Proof.
  intros b s.
  split; [split_and!; [reflexivity|reflexivity|reflexivity]|].
  destruct (add_racing_shutdown_strands_point (sample_point 1) b quiet_world)
    as (_ & Hb & Hw & _); [reflexivity|reflexivity|reflexivity|].
  fold s in Hb, Hw. rewrite Hb, Hw. split_and!; reflexivity.
Defined.

Lemma thread_step_export batch todo b w :
  ∃ w', thread_step (FlushExport batch, todo) b w = ((Idle, todo), b, w')
    ∧ export_calls w' = export_calls w ++ [batch].
Proof.
  simpl. destruct (export_caught_returns b batch w) as (w' & -> & Hc & _).
  eauto.
Qed.

(** X23: Batches can reach [export] in another order than their points
    were added.  On a live buffer one point short of [max_size], a thread
    adds [p1], which fills the buffer, and swaps the pending list out;
    before it calls [export], another thread adds [p2] and, woken up as the
    worker, swaps [p2] out and hands it to [export]; then the first thread
    hands over its batch.  [p2], added after [p1] and after every point
    pending before, reaches [export] before all of them. *)
Theorem overlapping_flushes_hand_over_out_of_order p1 p2 b w :
  _shutdown b = false → data b ≠ [] →
  max_size b = (Z.of_nat (length (data b)) + 1)%Z →
  let s := mkSystem [(Idle, [Add p1]); (Idle, [Add p2; Wakeup])] b w in
  let s1 := exec [0; 0; 0]%nat s in
  let s2 := exec [0; 1; 1; 1]%nat s1 in
  let s3 := exec [1; 1; 1; 1; 0]%nat s2 in
  data (buffer s1) = data b ++ [p1]
  ∧ data (buffer s2) = [p2]
  ∧ threads s3 = [(Idle, []); (Idle, [])]
  ∧ data (buffer s3) = []
  ∧ export_calls (world s3) = export_calls w ++ [[p2]; data b ++ [p1]].
Proof.
  intros Hs Hne Hm s s1 s2 s3.
  destruct (data b) as [|x d] eqn:Hd; [done|]. clear Hne.
  simpl in Hm.
  assert (s1 = mkSystem [(FlushSwap, []); (Idle, [Add p2; Wakeup])]
                        (set_data (x :: d ++ [p1]) b) w) as Hs1.
  { unfold s1, s.
    scheduled idtac. scheduled ltac:(rewrite Hs).
    scheduled ltac:(rewrite Hd; simpl; rewrite length_app; simpl;
                    rewrite bool_decide_eq_true_2 by lia).
    reflexivity. }
  assert (s2 = mkSystem [(FlushExport (x :: d ++ [p1]), []); (Idle, [Wakeup])]
                        (set_data [p2] b) w) as Hs2.
  { unfold s2. rewrite Hs1.
    scheduled idtac. scheduled idtac. scheduled ltac:(rewrite Hs).
    scheduled ltac:(rewrite bool_decide_eq_false_2 by lia).
    reflexivity. }
  destruct (thread_step_export [p2] [] (set_data [] b) w) as (w1 & Hx1 & Hc1).
  destruct (thread_step_export (x :: d ++ [p1]) [] (set_data [] b) w1)
    as (w2 & Hx2 & Hc2).
  assert (s3 = mkSystem [(Idle, []); (Idle, [])] (set_data [] b) w2) as Hs3.
  { unfold s3. rewrite Hs2.
    scheduled idtac. scheduled ltac:(rewrite Hs). scheduled idtac.
    rewrite exec_cons. erewrite system_step_at; [|reflexivity|exact Hx1].
    cbn [threads buffer world].
    rewrite exec_cons. erewrite system_step_at; [|reflexivity|exact Hx2].
    reflexivity. }
  rewrite Hs1, Hs2, Hs3. simpl. split_and!; try done.
  by rewrite Hc2, Hc1, <- (assoc_L (++)).
Qed.

Lemma overlapping_flushes_hand_over_out_of_order_witness :
  let b := set_data (replicate 99 (sample_point 1))
             (__init__ "http://localhost:8081/v1/metrics" "key" "svc") in
  let s := mkSystem [(Idle, [Add (sample_point 2)]);
                     (Idle, [Add (sample_point 3); Wakeup])] b quiet_world in
  (_shutdown b = false ∧ data b ≠ []
   ∧ max_size b = (Z.of_nat (length (data b)) + 1)%Z)
  ∧ export_calls
      (world (exec [1; 1; 1; 1; 0]%nat
                (exec [0; 1; 1; 1]%nat (exec [0; 0; 0]%nat s))))
    = [[sample_point 3]; replicate 99 (sample_point 1) ++ [sample_point 2]].
Proof.
  intros b s.
  split; [split_and!; [reflexivity|discriminate|reflexivity]|].
  destruct (overlapping_flushes_hand_over_out_of_order
              (sample_point 2) (sample_point 3) b quiet_world)
    as (_ & _ & _ & _ & Hc); [reflexivity|discriminate|reflexivity|].
  exact Hc.
Defined.

(** A thread run on its own: [n] steps with no step of another thread in
    between. *)
Fixpoint solo (n : nat) (th : thread) (b : t) (w : World) : thread * t * World :=
  match n with
  | O => (th, b, w)
  | S n' => let '(th', b', w') := thread_step th b w in solo n' th' b' w'
  end.

Lemma solo_step n th b w th' b' w' :
  thread_step th b w = (th', b', w') → solo (S n) th b w = solo n th' b' w'.
Proof. simpl. by intros ->. Qed.

Lemma exec_solo n : ∀ s i th th' b' w',
  threads s !! i = Some th →
  solo n th (buffer s) (world s) = (th', b', w') →
  exec (replicate n i) s = mkSystem (<[i := th']> (threads s)) b' w'.
Proof.
  induction n as [|n IH]; intros s i th th' b' w' Hi Hsolo; simpl in Hsolo.
  - simplify_eq. rewrite list_insert_id by done. by destruct s.
  - destruct (thread_step th (buffer s) (world s)) as [[th1 b1] w1] eqn:Hstep.
    simpl replicate. rewrite exec_cons, (system_step_at _ _ _ _ _ _ Hi Hstep).
    erewrite IH; [|by apply list_lookup_insert_eq, lookup_lt_is_Some|exact Hsolo].
    simpl. by rewrite list_insert_insert_eq.
Qed.

(** A call that no step of another thread interrupts does what [step] says
    of it: the calls that do not overlap are runs of the threads. *)
Lemma call_alone s i o todo :
  threads s !! i = Some (Idle, o :: todo) →
  ∃ n b' w',
    step (buffer s) o (world s) = (Returns b', w')
    ∧ exec (replicate n i) s = mkSystem (<[i := (Idle, todo)]> (threads s)) b' w'.
Proof.
  intros Hi.
  cut (∃ n b' w', step (buffer s) o (world s) = (Returns b', w')
                  ∧ solo n (Idle, o :: todo) (buffer s) (world s)
                    = ((Idle, todo), b', w')).
  { intros (n & b' & w' & Hstep & Hsolo). exists n, b', w'.
    split; [done|]. by eapply exec_solo. }
  generalize (buffer s) (world s). clear Hi. intros b w.
  assert (∀ b0 : t, data b0 ≠ [] →
            ∃ w', _flush b0 w = (Returns (set_data [] b0), w')
                  ∧ solo 2 (FlushSwap, todo) b0 w = ((Idle, todo), set_data [] b0, w'))
    as Hflush.
  { intros b0 Hne. unfold _flush. simpl.
    destruct (data b0) as [|p batch] eqn:Hd; [done|].
    unfold bind.
    destruct (export_caught_returns (set_data [] b0) (p :: batch) w)
      as (w' & Hx & _).
    unfold export_caught in *. simpl in Hx. rewrite Hx.
    exists w'. split; [done|]. simpl. unfold export_caught. simpl.
    by rewrite Hx. }
  assert (∀ b0 : t, data b0 = [] →
            _flush b0 w = (Returns b0, w)
            ∧ solo 1 (FlushSwap, todo) b0 w = ((Idle, todo), b0, w))
    as Hnoflush.
  { intros b0 Hd. unfold _flush. simpl. by rewrite Hd. }
  destruct o as [p| |]; simpl step.
  - (* add *)
    unfold add. destruct (_shutdown b) eqn:Hs.
    { exists 2%nat, b, w. simpl. by rewrite Hs. }
    case_bool_decide as Hfull.
    + destruct (Hflush (set_data (data b ++ [p]) b)) as (w' & Hf & Hsolo).
      { simpl. by destruct (data b). }
      exists 5%nat; eexists; exists w'. split; [exact Hf|].
      erewrite (solo_step 4); [|reflexivity].
      erewrite (solo_step 3); [|simpl; rewrite Hs; reflexivity].
      erewrite (solo_step 2);
        [|simpl; rewrite bool_decide_eq_true_2 by done; reflexivity].
      exact Hsolo.
    + exists 3%nat; eexists; exists w. split; [reflexivity|].
      erewrite (solo_step 2); [|reflexivity].
      erewrite (solo_step 1); [|simpl; rewrite Hs; reflexivity].
      erewrite (solo_step 0);
        [|simpl; rewrite bool_decide_eq_false_2 by done; reflexivity].
      reflexivity.
  - (* one wake-up of the worker *)
    unfold _flush_loop_wakeup. destruct (_shutdown b) eqn:Hs; simpl negb; cbv iota.
    { exists 2%nat, b, w. simpl. by rewrite Hs. }
    destruct (data b) as [|p batch] eqn:Hd.
    + destruct (Hnoflush b Hd) as (Hf & Hsolo).
      exists 3%nat; eexists; exists w. split; [exact Hf|].
      erewrite (solo_step 2); [|reflexivity].
      erewrite (solo_step 1); [|simpl; rewrite Hs; reflexivity].
      exact Hsolo.
    + destruct (Hflush b) as (w' & Hf & Hsolo); [by rewrite Hd|].
      exists 4%nat; eexists; exists w'. split; [exact Hf|].
      erewrite (solo_step 3); [|reflexivity].
      erewrite (solo_step 2); [|simpl; rewrite Hs; reflexivity].
      exact Hsolo.
  - (* shutdown *)
    unfold shutdown.
    destruct (data b) as [|p batch] eqn:Hd.
    + destruct (Hnoflush (set_shutdown true b) Hd) as (Hf & Hsolo).
      exists 3%nat; eexists; exists w. split; [exact Hf|].
      erewrite (solo_step 2); [|reflexivity].
      erewrite (solo_step 1); [|reflexivity].
      exact Hsolo.
    + destruct (Hflush (set_shutdown true b)) as (w' & Hf & Hsolo);
        [simpl; by rewrite Hd|].
      exists 4%nat; eexists; exists w'. split; [exact Hf|].
      erewrite (solo_step 3); [|reflexivity].
      erewrite (solo_step 2); [|reflexivity].
      exact Hsolo.
Qed.

End threads_facts.



